(** * tmx_loader: a Tiled map to Panda3D scene-graph adapter

    A shallow embedding of [src/tmx_loader/__init__.py] and the properties
    of it that the specification states.

    Conventions of the embedding.
    - Python [int] is [Z]; the bit operations are the two's complement ones
      of [Z] ([Z.land], [Z.lor], [Z.lnot]), which is what Python's unbounded
      integers implement.  [divmod] is [Z.div] and [Z.modulo] (floor).
    - Python and engine floating point numbers are idealised as exact
      rationals [Q]; equalities between computed coordinates are stated with
      [==] ([Qeq]).  The engine computes in single precision: its matrix of
      a half turn carries the rounded sine of 180 degrees (about -8.7e-8)
      where the exact half turn has 0, and a product of matrices is
      rounded entry by entry.  What is stated of coordinates that pass
      through a flip or through a division by an image dimension is
      therefore either a bound that rounding does not cross, or an
      equality on inputs where single precision is exact (integers up to
      2^24, image dimensions that are powers of two).
    - A dict is an association list in insertion order: [find_source] and
      [load_tile_colliders] iterate over the values in that order.
    - The engine's scene graph is a store of nodes addressed by references;
      a [NodePath] is a reference into it.  The record of a node holds its
      name, what kind of node it is with the content of that kind, its
      transform, its render state and its children.  The links from a node
      up to its parents are not recorded: attaching a node below a parent
      is the parent's change.  The collider registry (the dict of the
      loader's [ColliderHandler]) lives in the same state record.
      Exceptions are a result type, and a raise leaves the state as it was
      at that point.
    - Objects held only by a local variable ([TileArranger],
      [TileGeomBuilder]) are passed and returned as values.  The document's
      layers are returned by the operations that can assign to them.

    What is assumed of the engine: [LMatrix4()] is the identity matrix, as
    the code relies on; matrices act on row vectors; [Texture.read]
    reports the image it finds and does not raise; [PNMImage.alpha_fill]
    gives an image without an alpha channel one; the constructor of
    [CollisionBox] refuses, by an assertion, a box that has no extent
    along an axis; a child node inherits the transform of its parent. *)

From Stdlib Require Import ZArith QArith Ascii String List Lia Lqa Bool.
From stdpp Require Import base option gmap.

Local Open Scope Z_scope.
Import ListNotations.

(** ** Flag constants *)

Definition HORIZONTAL_FLIP_FLAG : Z := 0x80000000.
Definition VERTICAL_FLIP_FLAG : Z := 0x40000000.
Definition DIAGONAL_FLIP_FLAG : Z := 0x20000000.
Definition HEXAGONAL_ROTATION_FLAG : Z := 0x10000000.

(** The operand of the [gid &= ~(...)] statements. *)
Definition ALL_FLAGS : Z :=
  Z.lor (Z.lor (Z.lor HORIZONTAL_FLIP_FLAG DIAGONAL_FLIP_FLAG) VERTICAL_FLIP_FLAG)
        HEXAGONAL_ROTATION_FLAG.

Definition clear_flags (gid : Z) : Z := Z.land gid (Z.lnot ALL_FLAGS).

(** Python truthiness of an integer. *)
Definition truthy (n : Z) : bool := negb (n =? 0).

(** ** Exceptions *)

(** The text of a message, with the value an f-string interpolates. *)
Inductive Message :=
| Msg (text : string)
| MsgInt (text : string) (arg : Z)
| MsgStr (text : string) (arg : string).

Inductive Exn :=
| UnsupportedError (m : Message)   (* class UnsupportedError(ValueError) *)
| ValueError (m : Message)
| KeyError (key : Z)
| ZeroDivisionError
| AssertionError.

Inductive Result (A : Type) :=
| Ok (a : A)
| Raise (e : Exn).
Arguments Ok {A} a.
Arguments Raise {A} e.

#[global] Instance result_ret : MRet Result := fun A a => Ok a.
#[global] Instance result_bind : MBind Result := fun A B k r =>
  match r with
  | Ok a => k a
  | Raise e => Raise e
  end.

(** ** Linear algebra of the engine: [LMatrix4], row-vector convention *)

Local Open Scope Q_scope.

Record LVecBase3 := V3 { vx : Q; vy : Q; vz : Q }.
Record LVecBase4 := V4 { wx : Q; wy : Q; wz : Q; ww : Q }.
Record LMatrix4 := Mat4 { row0 : LVecBase4; row1 : LVecBase4; row2 : LVecBase4; row3 : LVecBase4 }.

Definition ident_mat : LMatrix4 :=
  Mat4 (V4 1 0 0 0) (V4 0 1 0 0) (V4 0 0 1 0) (V4 0 0 0 1).

Definition scale_mat (sx sy sz : Q) : LMatrix4 :=
  Mat4 (V4 sx 0 0 0) (V4 0 sy 0 0) (V4 0 0 sz 0) (V4 0 0 0 1).

Definition translate_mat (tx ty tz : Q) : LMatrix4 :=
  Mat4 (V4 1 0 0 0) (V4 0 1 0 0) (V4 0 0 1 0) (V4 tx ty tz 1).

(** [rotate_mat(180, axis)]: a half turn about [axis] is [2 n n^T - I] for
    the unit vector [n] along [axis], that is [2 a a^T / (a . a) - I]; the
    engine normalises the axis first.  A zero axis is left as the zero
    direction. *)
Definition rotate_mat_180 (ax ay az : Q) : LMatrix4 :=
  let d := ax * ax + ay * ay + az * az in
  let e (p q : Q) (diag : Q) := 2 * p * q / d - diag in
  Mat4 (V4 (e ax ax 1) (e ax ay 0) (e ax az 0) 0)
       (V4 (e ay ax 0) (e ay ay 1) (e ay az 0) 0)
       (V4 (e az ax 0) (e az ay 0) (e az az 1) 0)
       (V4 0 0 0 1).

Definition vec4_comb (a : LVecBase4) (m : LMatrix4) : LVecBase4 :=
  V4 (wx a * wx (row0 m) + wy a * wx (row1 m) + wz a * wx (row2 m) + ww a * wx (row3 m))
     (wx a * wy (row0 m) + wy a * wy (row1 m) + wz a * wy (row2 m) + ww a * wy (row3 m))
     (wx a * wz (row0 m) + wy a * wz (row1 m) + wz a * wz (row2 m) + ww a * wz (row3 m))
     (wx a * ww (row0 m) + wy a * ww (row1 m) + wz a * ww (row2 m) + ww a * ww (row3 m)).

(** [a * b]: with row vectors, [a] is applied first. *)
Definition mat_mul (a b : LMatrix4) : LMatrix4 :=
  Mat4 (vec4_comb (row0 a) b) (vec4_comb (row1 a) b)
       (vec4_comb (row2 a) b) (vec4_comb (row3 a) b).

(** [m.xform_point(p)]: the point as the row vector [(x, y, z, 1)]. *)
Definition xform_point (m : LMatrix4) (p : LVecBase3) : LVecBase3 :=
  let r := vec4_comb (V4 (vx p) (vy p) (vz p) 1) m in
  V3 (wx r) (wy r) (wz r).

Definition Qeq3 (p q : LVecBase3) : Prop :=
  vx p == vx q /\ vy p == vy q /\ vz p == vz q.

Local Close Scope Q_scope.

(** ** Transform codec *)

Definition extract_tile_transform (gid : Z) : Z * LMatrix4 :=
  let transform := ident_mat in
  let transform :=
    if truthy (Z.land gid DIAGONAL_FLIP_FLAG)
    then mat_mul (mat_mul transform (rotate_mat_180 1 0 (-1))) (translate_mat 1 0 (-1))
    else transform in
  let transform :=
    if truthy (Z.land gid HORIZONTAL_FLIP_FLAG)
    then mat_mul (mat_mul transform (rotate_mat_180 0 0 1)) (translate_mat 1 0 0)
    else transform in
  let transform :=
    if truthy (Z.land gid VERTICAL_FLIP_FLAG)
    then mat_mul (mat_mul transform (rotate_mat_180 1 0 0)) (translate_mat 0 0 1)
    else transform in
  let gid := Z.land gid (Z.lnot ALL_FLAGS) in
  (gid, transform).

(** ** The parsed map document (the parser's data classes) *)

(** [pathlib.Path]: whether it is anchored at the root, and its parts. *)
Record Path := MkPath { path_absolute : bool; path_parts : list string }.

(** [p.parent] *)
Definition parent (p : Path) : Path :=
  MkPath (path_absolute p) (removelast (path_parts p)).

(** [p / q]: an absolute right operand replaces the left one. *)
Definition path_join (p q : Path) : Path :=
  if path_absolute q then q
  else MkPath (path_absolute p) (path_parts p ++ path_parts q).

(** Index of the last ["."] of a name, counted from the left. *)
Fixpoint rfind_dot (s : string) (pos : nat) (found : option nat) : option nat :=
  match s with
  | EmptyString => found
  | String c rest =>
      rfind_dot rest (S pos) (if Ascii.eqb c "."%char then Some pos else found)
  end.

(** [p.stem]: the last part without its final suffix. *)
Definition stem (p : Path) : string :=
  let name := List.last (path_parts p) EmptyString in
  match rfind_dot name 0 None with
  | Some i =>
      if (0 <? i)%nat && (S i <? String.length name)%nat
      then String.substring 0 i name else name
  | None => name
  end.

Inductive Shape :=
| TileShape (gid : Z)      (* tiled_object.Tile *)
| RectangleShape
| EllipseShape
| PointShape
| PolygonShape
| PolylineShape
| TextShape.

Record TiledObject := MkTiledObject {
  obj_name : string;
  obj_coordinates : Q * Q;   (* OrderedPair x y *)
  obj_size : Q * Q;          (* Size width height *)
  obj_rotation : Q;
  obj_shape : Shape
}.

Record LayerHeader := MkLayerHeader { layer_name : string; layer_opacity : Q }.

#[warnings="-register-all"]
Inductive Layer :=
| TileLayer (h : LayerHeader) (data : option (list (list Z)))
| ObjectLayer (h : LayerHeader) (tiled_objects : list TiledObject)
| ImageLayer (h : LayerHeader) (image : Path)
| LayerGroup (h : LayerHeader) (layers : option (list Layer))
| BaseLayer (h : LayerHeader).   (* a Layer of none of the four kinds *)

Record Tile := MkTile { tile_id : Z; tile_objects : option Layer }.

Record Tileset := MkTileset {
  ts_name : string;
  firstgid : Z;
  tile_count : Z;
  tile_width : Z;
  tile_height : Z;
  margin : Z;
  spacing : Z;
  columns : Z;
  ts_image : option Path;
  image_width : option Z;
  image_height : option Z;
  tiles : option (list (Z * Tile))    (* dict, in insertion order *)
}.

Record TiledMap := MkTiledMap {
  infinite : bool;
  orientation : string;
  tile_size : Q * Q;                  (* Size width height *)
  tilesets : list (Z * Tileset);      (* dict, in insertion order *)
  layers : list Layer;
  map_file : Path
}.

(** [d.values()] and [d[k]] of a dict kept as an association list. *)
Definition dict_values {V} (d : list (Z * V)) : list V := map snd d.

Fixpoint dict_get {V} (d : list (Z * V)) (k : Z) : option V :=
  match d with
  | [] => None
  | (k', v) :: rest => if k' =? k then Some v else dict_get rest k
  end.

Definition dict_getitem {V} (d : list (Z * V)) (k : Z) : Result V :=
  match dict_get d k with
  | Some v => Ok v
  | None => Raise (KeyError k)
  end.

(** ** Atlas mapper *)

(** [divmod(tile_id, columns)]: row and column of a local tile index. *)
Definition atlas_cell (ts : Tileset) (tile_id : Z) : Z * Z :=
  (tile_id / columns ts, tile_id mod columns ts).

(** [x_start] and [y_start], the tile's pixel origin from the top left. *)
Definition atlas_origin (ts : Tileset) (tile_id : Z) : Z * Z :=
  let '(j, i) := atlas_cell ts tile_id in
  (i * (tile_width ts + spacing ts), j * (tile_height ts + spacing ts)).

Definition true_div (a b : Q) : Result Q :=
  if Qeq_bool b 0 then Raise ZeroDivisionError else Ok (a / b)%Q.

Definition get_tile_uv_transform (ts : Tileset) (tile_id : Z) : Result LMatrix4 :=
  let tile_scale := scale_mat (inject_Z (tile_width ts)) 1 (inject_Z (tile_height ts)) in
  match image_height ts, image_width ts with
  | Some ih, Some iw =>
      let shift := translate_mat (inject_Z (margin ts)) 0
                     (inject_Z (ih - margin ts - tile_height ts)) in
      sx ← true_div 1 (inject_Z iw);
      sz ← true_div 1 (inject_Z ih);
      let image_scale := scale_mat sx 1 sz in
      if columns ts =? 0 then Raise ZeroDivisionError else
      let '(x_start, y_start) := atlas_origin ts tile_id in
      let translation := translate_mat (inject_Z x_start) 0 (inject_Z (- y_start)) in
      Ok (mat_mul (mat_mul (mat_mul tile_scale shift) translation) image_scale)
  | _, _ =>
      Raise (ValueError (MsgStr "Missing image dimensions for tileset" (ts_name ts)))
  end.

(** ** Tile batch builder *)

(** A row of the [v3t2] vertex data: position and texture coordinate. *)
Record VertexRow := MkRow { row_vertex : LVecBase3; row_texcoord : Q * Q }.

Record TileGeomBuilder := MkBuilder { vertex_data : list VertexRow }.

Definition quad_points : list (Q * Q) :=
  [(0, 0); (0, 1); (1, 1); (1, 1); (1, 0); (0, 0)]%Q.

Definition TileGeomBuilder_add_tile (b : TileGeomBuilder)
    (shape_xform uv_xform : LMatrix4) : TileGeomBuilder :=
  fold_left
    (fun b '(x, y) =>
       let vertex := xform_point shape_xform (V3 x 0 y) in
       let texcoord := xform_point uv_xform (V3 x 0 y) in
       MkBuilder (vertex_data b ++ [MkRow vertex (vx texcoord, vz texcoord)]))
    quad_points b.

(** A triangle list over the first [n] rows of its vertex data. *)
Record Geom := MkGeom { geom_vertex_data : list VertexRow; geom_triangles : nat }.

Definition generate_geom (b : TileGeomBuilder) : Geom :=
  MkGeom (vertex_data b) (length (vertex_data b)).

(** ** Tile arranger: placing one tile into the batch *)

Record TileArranger := MkArranger { tileset : Tileset; geom_builder : TileGeomBuilder }.

Definition new_TileArranger (ts : Tileset) : TileArranger := MkArranger ts (MkBuilder []).

Definition TileArranger_add_tile (a : TileArranger) (gid x y : Z) : Result TileArranger :=
  if negb (truthy gid) then Ok a else
  let '(gid, tile_transform) := extract_tile_transform gid in
  let tile_scale :=
    scale_mat (inject_Z (tile_width (tileset a))) 1 (inject_Z (tile_height (tileset a))) in
  let tile_transform :=
    mat_mul tile_transform
      (mat_mul (translate_mat (inject_Z x) 0 (inject_Z (- y - 1))) tile_scale) in
  uv_transform ← get_tile_uv_transform (tileset a) (gid - firstgid (tileset a));
  Ok (MkArranger (tileset a)
        (TileGeomBuilder_add_tile (geom_builder a) tile_transform uv_transform)).

(** ** Map assembler: which tileset owns a gid *)

Definition in_range (gid : Z) (ts : Tileset) : bool :=
  (0 <=? gid - firstgid ts) && (gid - firstgid ts <? tile_count ts).

Fixpoint scan_tilesets (gid : Z) (l : list Tileset) : Result Tileset :=
  match l with
  | [] => Raise (ValueError (MsgInt "Could not find tileset for tile" gid))
  | ts :: rest => if in_range gid ts then Ok ts else scan_tilesets gid rest
  end.

Definition find_source (m : TiledMap) (gid : Z) : Result Tileset :=
  let gid := Z.land gid (Z.lnot ALL_FLAGS) in
  scan_tilesets gid (dict_values (tilesets m)).

(** ** The engine: textures, nodes and the scene graph store *)

Inductive FilterType := FT_default | FT_nearest.

(** What reading an image file gives the engine. *)
Record ImageFile := MkImageFile {
  img_x_size : Z; img_y_size : Z;
  img_orig_file_x_size : Z; img_orig_file_y_size : Z;
  img_num_components : Z
}.

Record Texture := MkTexture {
  tex_file : Path;                 (* the file its pixels come from *)
  tex_image : ImageFile;
  tex_magfilter : FilterType;
  tex_alpha_fill : option Q        (* alpha rewritten uniformly to this value *)
}.

Record RenderState := MkRenderState { rs_texture : Texture; rs_alpha_blend : bool }.

Inductive CollisionSolid :=
| CollisionBox (box_min box_max : LVecBase3).

Inductive NodeKind :=
| PlainNode
| GeomNode (geoms : list (Geom * RenderState))
| CardNode (frame : Q * Q * Q * Q)       (* what CardMaker.generate() builds *)
| CollisionNode (solids : list CollisionSolid).

(** A reference to a node of the scene graph store. *)
Definition NodePath := nat.

Record PandaNode := MkNode {
  node_name : string;
  node_kind : NodeKind;
  node_pos : LVecBase3;
  node_r : Q;
  node_scale : LVecBase3;
  node_state : option RenderState;
  node_children : list NodePath
}.

Definition fresh_node (name : string) (k : NodeKind) : PandaNode :=
  MkNode name k (V3 0 0 0) 0 (V3 1 1 1) None [].

(** Everything the loader can change or consult outside the document: the
    nodes constructed so far, the collider registry of the loader's
    [ColliderHandler], and the image files on disk. *)
Record State := MkState {
  next_node : nat;
  scene : gmap nat PandaNode;
  colliders : gmap Z NodePath;
  read_image : Path -> ImageFile
}.

Definition M (A : Type) : Type := State -> State * Result A.

#[global] Instance M_ret : MRet M := fun A a s => (s, Ok a).
#[global] Instance M_bind : MBind M := fun A B k c s =>
  match c s with
  | (s', Ok a) => k a s'
  | (s', Raise e) => (s', Raise e)
  end.

Definition lift {A} (r : Result A) : M A := fun s => (s, r).

Definition set_scene (s : State) (n : nat) (h : gmap nat PandaNode) : State :=
  MkState n h (colliders s) (read_image s).

Definition set_colliders (s : State) (c : gmap Z NodePath) : State :=
  MkState (next_node s) (scene s) c (read_image s).

(** Constructing a node of any class. *)
Definition construct (name : string) (k : NodeKind) : M NodePath := fun s =>
  (set_scene s (S (next_node s)) (<[next_node s := fresh_node name k]> (scene s)),
   Ok (next_node s)).

Definition modify (p : NodePath) (f : PandaNode -> PandaNode) : M unit := fun s =>
  (set_scene s (next_node s) (alter f p (scene s)), Ok tt).

Definition with_children (f : list NodePath -> list NodePath) (n : PandaNode) : PandaNode :=
  MkNode (node_name n) (node_kind n) (node_pos n) (node_r n) (node_scale n)
         (node_state n) (f (node_children n)).
Definition with_pos (v : LVecBase3) (n : PandaNode) : PandaNode :=
  MkNode (node_name n) (node_kind n) v (node_r n) (node_scale n)
         (node_state n) (node_children n).
Definition with_r (r : Q) (n : PandaNode) : PandaNode :=
  MkNode (node_name n) (node_kind n) (node_pos n) r (node_scale n)
         (node_state n) (node_children n).
Definition with_scale (v : LVecBase3) (n : PandaNode) : PandaNode :=
  MkNode (node_name n) (node_kind n) (node_pos n) (node_r n) v
         (node_state n) (node_children n).
Definition with_state (rs : RenderState) (n : PandaNode) : PandaNode :=
  MkNode (node_name n) (node_kind n) (node_pos n) (node_r n) (node_scale n)
         (Some rs) (node_children n).
Definition with_kind (f : NodeKind -> NodeKind) (n : PandaNode) : PandaNode :=
  MkNode (node_name n) (f (node_kind n)) (node_pos n) (node_r n) (node_scale n)
         (node_state n) (node_children n).

(** [NodePath(name)] *)
Definition new_NodePath (name : string) : M NodePath := construct name PlainNode.

(** [parent.attach_new_node(node)]: [node] becomes the last child.  The
    engine also notes the parent on [node]; the record of [node] (name,
    kind, transform, render state, children) is not touched. *)
Definition attach_new_node (parent_path : NodePath) (node : NodePath) : M NodePath :=
  _ ← modify parent_path (with_children (fun c => c ++ [node]));
  mret node.

(** [parent.attach_new_node(name)]: a new plain node, attached. *)
Definition attach_new_named (parent_path : NodePath) (name : string) : M NodePath :=
  node ← construct name PlainNode;
  attach_new_node parent_path node.

(** [child.reparent_to(parent)].  Every receiver in this program is a path
    constructed by the loader that has no parent yet, so nothing is
    detached. *)
Definition reparent_to (child parent_path : NodePath) : M unit :=
  modify parent_path (with_children (fun c => c ++ [child])).

Definition set_pos (p : NodePath) (x y z : Q) : M unit := modify p (with_pos (V3 x y z)).
Definition set_scale (p : NodePath) (x y z : Q) : M unit := modify p (with_scale (V3 x y z)).
Definition set_r (p : NodePath) (r : Q) : M unit := modify p (with_r r).
Definition set_state (p : NodePath) (rs : RenderState) : M unit := modify p (with_state rs).

Definition add_solid (p : NodePath) (c : CollisionSolid) : M unit :=
  modify p (with_kind (fun k =>
    match k with
    | CollisionNode solids => CollisionNode (solids ++ [c])
    | other => other
    end)).

Definition add_geom (p : NodePath) (g : Geom) (rs : RenderState) : M unit :=
  modify p (with_kind (fun k =>
    match k with
    | GeomNode geoms => GeomNode (geoms ++ [(g, rs)])
    | other => other
    end)).

(** [texture.read(path)] *)
Definition texture_read (path : Path) : M Texture := fun s =>
  (s, Ok (MkTexture path (read_image s path) FT_default None)).

(** [for x in xs: body(x)] *)
Fixpoint for_each {A} (xs : list A) (body : A -> M unit) : M unit :=
  match xs with
  | [] => mret tt
  | x :: rest => _ ← body x; for_each rest body
  end.

(** [enumerate(xs)] *)
Fixpoint enumerate_from {A} (i : Z) (xs : list A) : list (Z * A) :=
  match xs with
  | [] => []
  | x :: rest => (i, x) :: enumerate_from (i + 1) rest
  end.
Definition enumerate {A} (xs : list A) : list (Z * A) := enumerate_from 0 xs.

(** ** Texture and render state helpers *)

Definition load_tileset_image (ts : Tileset) : M Texture :=
  match ts_image ts with
  | None => lift (Raise AssertionError)
  | Some image =>
      texture ← texture_read image;
      mret (MkTexture (tex_file texture) (tex_image texture) FT_nearest
              (tex_alpha_fill texture))
  end.

Definition make_render_state (texture : Texture) : RenderState :=
  if 3 <? img_num_components (tex_image texture)
  then MkRenderState texture true
  else MkRenderState texture false.

(** [image.alpha_fill(opacity)] on an image without an alpha channel adds
    one: a grayscale image ends with two components, a colour image with
    four. *)
Definition with_alpha (image : ImageFile) : ImageFile :=
  MkImageFile (img_x_size image) (img_y_size image)
    (img_orig_file_x_size image) (img_orig_file_y_size image)
    (if img_num_components image <? 3 then 2 else 4).

(** A new texture with the same pixels and the alpha channel filled. *)
Definition modify_opacity (texture : Texture) (opacity : Q) : Texture :=
  MkTexture (tex_file texture) (with_alpha (tex_image texture)) FT_default (Some opacity).

Definition TileArranger_generate_node (a : TileArranger) : M NodePath :=
  node ← construct "tile" (GeomNode []);
  let tile_geom := generate_geom (geom_builder a) in
  texture ← load_tileset_image (tileset a);
  let render_state := make_render_state texture in
  _ ← add_geom node tile_geom render_state;
  mret node.

Definition load_image_layer (h : LayerHeader) (image : Path) : M NodePath :=
  layer_node ← new_NodePath (layer_name h);
  texture ← texture_read image;
  let width := img_orig_file_x_size (tex_image texture) in
  let height := img_orig_file_y_size (tex_image texture) in
  let texture := modify_opacity texture (layer_opacity h) in
  image_node ← construct (stem image)
                 (CardNode (0, inject_Z width, inject_Z (- height), 0)%Q);
  _ ← set_state image_node (make_render_state texture);
  _ ← reparent_to image_node layer_node;
  mret layer_node.

(** ** Collider registry *)

(** [CollisionBox(min, max)]: the constructor asserts that the box has an
    extent along each axis. *)
Definition new_CollisionBox (box_min box_max : LVecBase3) : Result CollisionSolid :=
  if Qeq_bool (vx box_min) (vx box_max) || Qeq_bool (vy box_min) (vy box_max)
     || Qeq_bool (vz box_min) (vz box_max)
  then Raise AssertionError
  else Ok (CollisionBox box_min box_max).

Definition load_collider (o : TiledObject) : Result CollisionSolid :=
  match obj_shape o with
  | RectangleShape =>
      let '(width, height) := obj_size o in
      new_CollisionBox (V3 0 (-16) (- height)) (V3 width 16 0)
  | _ => Raise (UnsupportedError (Msg "Non-rectangular colliders not yet supported"))
  end.

Definition register_collider (gid : Z) (node : NodePath) : M unit := fun s =>
  (set_colliders s (<[gid := node]> (colliders s)), Ok tt).

(** The body of the loop of [load_colliders] over the tiles. *)
Definition collider_of_tile (ts : Tileset) (tile : Tile) : M unit :=
  match tile_objects tile with
  | Some (ObjectLayer _ tiled_objects) =>
      collision_node ← construct "collision_node" (CollisionNode []);
      _ ← for_each tiled_objects (fun tiled_object =>
            solid ← lift (load_collider tiled_object);
            add_solid collision_node solid);
      register_collider (firstgid ts + tile_id tile) collision_node
  | _ => mret tt
  end.

Definition load_colliders (ts : Tileset) : M unit :=
  match tiles ts with
  | None => mret tt
  | Some d => for_each (dict_values d) (collider_of_tile ts)
  end.

Definition get_collider (gid : Z) : M (option NodePath) := fun s =>
  (s, Ok (colliders s !! gid)).

(** [for x in xs: acc = body(acc, x)]: a loop that updates a local object. *)
Fixpoint for_fold {A B} (xs : list A) (acc : B) (body : B -> A -> M B) : M B :=
  match xs with
  | [] => mret acc
  | x :: rest => acc' ← body acc x; for_fold rest acc' body
  end.

(** ** MapLoader *)

Definition load_tile_colliders (m : TiledMap) : M unit :=
  for_each (dict_values (tilesets m)) load_colliders.

Definition place_object (m : TiledMap) (o : TiledObject) : M NodePath :=
  object_path ← new_NodePath (obj_name o);
  _ ← match obj_shape o with
      | TileShape gid =>
          ts ← lift (find_source m gid);
          let tile_arranger := new_TileArranger ts in
          tile_arranger ← lift (TileArranger_add_tile tile_arranger gid 0 0);
          tile ← TileArranger_generate_node tile_arranger;
          tile_path ← attach_new_node object_path tile;
          let '(object_width, object_height) := obj_size o in
          width_scale ← lift (true_div object_width (fst (tile_size m)));
          height_scale ← lift (true_div object_height (snd (tile_size m)));
          _ ← set_pos tile_path 0 0 object_height;
          _ ← set_scale tile_path width_scale 1 height_scale;
          collision_node ← get_collider gid;
          match collision_node with
          | Some c => _ ← attach_new_node tile_path c; mret tt
          | None => mret tt
          end
      | _ => mret tt
      end;
  _ ← set_pos object_path (fst (obj_coordinates o)) 0 (- snd (obj_coordinates o));
  _ ← set_r object_path (obj_rotation o);
  mret object_path.

(** The body of the inner loop of [load_tile_layer], at cell [(i, j)]. *)
Definition tile_layer_cell (m : TiledMap) (collider_parent : NodePath) (j : Z)
    (tile_arranger : TileArranger) (cell : Z * Z) : M TileArranger :=
  let '(i, gid) := cell in
  let '(tile_width, tile_height) := tile_size m in
  tile_arranger ← lift (TileArranger_add_tile tile_arranger gid i j);
  collision_node ← get_collider gid;
  _ ← match collision_node with
      | Some c =>
          collider_path ← attach_new_named collider_parent "collider_location";
          _ ← set_pos collider_path (inject_Z i * tile_width) 0
                (inject_Z (- j) * tile_height);
          _ ← attach_new_node collider_path c;
          mret tt
      | None => mret tt
      end;
  mret tile_arranger.

Definition load_tile_layer (m : TiledMap) (h : LayerHeader)
    (data : option (list (list Z))) : M NodePath :=
  layer_node ← new_NodePath (layer_name h);
  collider_parent ← new_NodePath "cluster_collider";
  ts ← lift (dict_getitem (tilesets m) 1);
  let tile_arranger := new_TileArranger ts in
  tile_arranger ←
    for_fold (enumerate (default [] data)) tile_arranger (fun tile_arranger '(j, row) =>
      for_fold (enumerate row) tile_arranger (tile_layer_cell m collider_parent j));
  cluster_node ← TileArranger_generate_node tile_arranger;
  let cluster_path := cluster_node in
  _ ← reparent_to collider_parent cluster_path;
  _ ← reparent_to cluster_path layer_node;
  mret layer_node.

Definition load_object_layer (m : TiledMap) (h : LayerHeader)
    (tiled_objects : list TiledObject) : M NodePath :=
  layer_node ← new_NodePath (layer_name h);
  _ ← for_each tiled_objects (fun tiled_object =>
        object_node ← place_object m tiled_object;
        reparent_to object_node layer_node);
  mret layer_node.

(** [load_layer] is the one operation that writes to the document: it
    assigns [layer.image] of an image layer.  The layer object is therefore
    threaded through: the function returns the layer as it is left, whether
    or not composing it raised. *)
Fixpoint load_layer (m : TiledMap) (layer : Layer) (s : State)
    : Layer * (State * Result NodePath) :=
  match layer with
  | TileLayer h data => (layer, load_tile_layer m h data s)
  | ObjectLayer h tiled_objects => (layer, load_object_layer m h tiled_objects s)
  | ImageLayer h image =>
      let image := path_join (parent (map_file m)) image in
      (ImageLayer h image, load_image_layer h image s)
  | LayerGroup h sublayers =>
      (* load_layer_group *)
      let '(s, r) := new_NodePath (layer_name h) s in
      match r with
      | Raise e => (layer, (s, Raise e))
      | Ok layer_node =>
          let fix each (ls : list Layer) (s : State)
              : list Layer * (State * Result unit) :=
            match ls with
            | [] => ([], (s, Ok tt))
            | sublayer :: rest =>
                let '(sublayer, (s, r)) := load_layer m sublayer s in
                match r with
                | Raise e => (sublayer :: rest, (s, Raise e))
                | Ok sublayer_node =>
                    let '(s, _) := reparent_to sublayer_node layer_node s in
                    let '(rest, out) := each rest s in
                    (sublayer :: rest, out)
                end
            end in
          match sublayers with
          | None => (layer, (s, Ok layer_node))
          | Some ls =>
              let '(ls, (s, r)) := each ls s in
              (LayerGroup h (Some ls),
               (s, match r with Ok _ => Ok layer_node | Raise e => Raise e end))
          end
      end
  | BaseLayer h =>
      (layer, (s, Raise (UnsupportedError (Msg "Unsupported layer type"))))
  end.

(** The loop of [MapLoader.load_map] over the top-level layers. *)
Fixpoint load_layers (m : TiledMap) (map_root : NodePath) (ls : list Layer) (s : State)
    : list Layer * (State * Result unit) :=
  match ls with
  | [] => ([], (s, Ok tt))
  | layer :: rest =>
      let '(layer, (s, r)) := load_layer m layer s in
      match r with
      | Raise e => (layer :: rest, (s, Raise e))
      | Ok layer_node =>
          let '(s, _) := reparent_to layer_node map_root s in
          let '(rest, out) := load_layers m map_root rest s in
          (layer :: rest, out)
      end
  end.

Definition with_layers (m : TiledMap) (ls : list Layer) : TiledMap :=
  MkTiledMap (infinite m) (orientation m) (tile_size m) (tilesets m) ls (map_file m).

(** [MapLoader.load_map]: the document as it is left, and the outcome. *)
Definition MapLoader_load_map (m : TiledMap) (s : State)
    : TiledMap * (State * Result NodePath) :=
  let '(s, r) := new_NodePath (stem (map_file m)) s in
  match r with
  | Raise e => (m, (s, Raise e))
  | Ok map_root =>
      let '(ls, (s, r)) := load_layers m map_root (layers m) s in
      (with_layers m ls,
       (s, match r with Ok _ => Ok map_root | Raise e => Raise e end))
  end.

(** [MapLoader(tiled_map)]: the loader gets a new [ColliderHandler], whose
    dict is empty. *)
Definition new_MapLoader : M unit := fun s => (set_colliders s ∅, Ok tt).

(** ** Entry point.  [parse_map] is the document parser, a collaborator. *)

Definition load_map (parse_map : Path -> Result TiledMap) (path : Path) : M NodePath :=
  tiled_map ← lift (parse_map path);
  if infinite tiled_map
  then lift (Raise (UnsupportedError (Msg "Cannot load an infinite map")))
  else if negb (String.eqb (orientation tiled_map) "orthogonal")
  then lift (Raise (UnsupportedError
               (MsgStr "Unsupported map orientation" (orientation tiled_map))))
  else
    _ ← new_MapLoader;
    _ ← load_tile_colliders tiled_map;
    ((fun s => snd (MapLoader_load_map tiled_map s)) : M NodePath).

(** ** Definitions used to state the properties *)

(** The flag bits of a subset of the four flags. *)
Definition flag_bits (h v d x : bool) : Z :=
  Z.lor (Z.lor (Z.lor (if h then HORIZONTAL_FLIP_FLAG else 0)
                      (if v then VERTICAL_FLIP_FLAG else 0))
               (if d then DIAGONAL_FLIP_FLAG else 0))
        (if x then HEXAGONAL_ROTATION_FLAG else 0).

(** Bit positions of the four flags: 28 (hexagonal) to 31 (horizontal). *)
Definition is_flag_bit (n : Z) : bool := (28 <=? n) && (n <=? 31).

(** A tileset that only declares its gid range. *)
Definition range_tileset (name : string) (first count : Z) : Tileset :=
  MkTileset name first count 16 16 0 0 1 None None None None.

Definition two_tilesets_map : TiledMap :=
  MkTiledMap false "orthogonal" (16, 16)%Q
    [(1, range_tileset "first" 1 10); (11, range_tileset "second" 11 5)]
    [] (MkPath false ["map.tmx"%string]).

(** The atlas of the specification's example: 4 columns of 32x32 tiles in
    a 128x64 image, no margin, no spacing. *)
Definition atlas_4x2 : Tileset :=
  MkTileset "atlas" 1 8 32 32 0 0 4 (Some (MkPath false ["atlas.png"%string]))
    (Some 128) (Some 64) None.

(** The texture coordinate the batch builder writes for a quad point. *)
Definition texcoord_of (uv : LMatrix4) (x y : Q) : Q * Q :=
  let t := xform_point uv (V3 x 0 y) in (vx t, vz t).

(** *** Reading the scene graph store *)

Definition children_of (s : State) (p : NodePath) : list NodePath :=
  match scene s !! p with
  | Some n => node_children n
  | None => []
  end.

Definition geoms_of (s : State) (p : NodePath) : list (Geom * RenderState) :=
  match scene s !! p with
  | Some (MkNode _ (GeomNode geoms) _ _ _ _ _) => geoms
  | _ => []
  end.

Definition solids_of (s : State) (p : NodePath) : list CollisionSolid :=
  match scene s !! p with
  | Some (MkNode _ (CollisionNode solids) _ _ _ _ _) => solids
  | _ => []
  end.

Definition scale_of (s : State) (p : NodePath) : LVecBase3 :=
  match scene s !! p with
  | Some n => node_scale n
  | None => V3 1 1 1
  end.

Definition pos_of (s : State) (p : NodePath) : LVecBase3 :=
  match scene s !! p with
  | Some n => node_pos n
  | None => V3 0 0 0
  end.

(** The scale the scene graph applies to the node at the end of a path of
    nodes, each the parent of the next: the product of the nodes' own
    scales, as a child inherits the transform of its parent. *)
Fixpoint net_scale (s : State) (path : list NodePath) : LVecBase3 :=
  match path with
  | [] => V3 1 1 1
  | p :: rest =>
      let a := scale_of s p in
      let b := net_scale s rest in
      V3 (vx a * vx b) (vy a * vy b) (vz a * vz b)
  end.

(** A tile of a tileset that carries no object layer. *)
Definition no_object_layer (t : Tile) : Prop :=
  match tile_objects t with
  | Some (ObjectLayer _ _) => False
  | _ => True
  end.

(** *** The batch of a grid, as a function of one tileset *)

Fixpoint result_fold {A B} (xs : list A) (acc : B) (body : B -> A -> Result B) : Result B :=
  match xs with
  | [] => Ok acc
  | x :: rest => acc' ← body acc x; result_fold rest acc' body
  end.

(** The arranger after every cell of the grid has been added to it, in
    row-major order. *)
Definition arrange_grid (a : TileArranger) (data : list (list Z)) : Result TileArranger :=
  result_fold (enumerate data) a (fun a '(j, row) =>
    result_fold (enumerate row) a (fun a '(i, gid) => TileArranger_add_tile a gid i j)).

(** *** What [load_layer] may change in a layer *)

(** [changed_images m l l']: [l'] is [l] except that image paths of image
    layers in it may have been joined to the directory of the map file. *)
#[warnings="-register-all"]
Inductive changed_images (m : TiledMap) : Layer -> Layer -> Prop :=
| ci_tile h data : changed_images m (TileLayer h data) (TileLayer h data)
| ci_object h objs : changed_images m (ObjectLayer h objs) (ObjectLayer h objs)
| ci_base h : changed_images m (BaseLayer h) (BaseLayer h)
| ci_image_same h image : changed_images m (ImageLayer h image) (ImageLayer h image)
| ci_image_joined h image :
    changed_images m (ImageLayer h image)
      (ImageLayer h (path_join (parent (map_file m)) image))
| ci_group_none h : changed_images m (LayerGroup h None) (LayerGroup h None)
| ci_group h ls ls' :
    Forall2 (changed_images m) ls ls' ->
    changed_images m (LayerGroup h (Some ls)) (LayerGroup h (Some ls')).

(** Whether a layer is, or contains, an image layer. *)
Fixpoint has_image_layer (l : Layer) : bool :=
  match l with
  | ImageLayer _ _ => true
  | LayerGroup _ (Some ls) => existsb has_image_layer ls
  | _ => false
  end.

(** A tileset the atlas mapper accepts: image dimensions known and not
    zero, and a column count that is not zero. *)
Definition atlas_ready (ts : Tileset) : Prop :=
  (exists iw, image_width ts = Some iw /\ iw <> 0)
  /\ (exists ih, image_height ts = Some ih /\ ih <> 0)
  /\ columns ts <> 0.

(** *** States reached while a grid is composed *)

(** The state after a collider has been placed below [collider_parent]. *)
Definition collider_placed (s : State) (collider_parent c : NodePath) (pos : LVecBase3)
    : State :=
  set_scene s (S (next_node s))
    (alter (with_children (fun ch => ch ++ [c])) (next_node s)
       (alter (with_pos pos) (next_node s)
          (alter (with_children (fun ch => ch ++ [next_node s])) collider_parent
             (<[next_node s := fresh_node "collider_location" PlainNode]> (scene s))))).

(** The texture [load_tileset_image] makes of an image file. *)
Definition tileset_texture (s : State) (img : Path) : Texture :=
  MkTexture img (read_image s img) FT_nearest None.

(** The state after the batch node of an arranger has been generated. *)
Definition node_generated (s : State) (a : TileArranger) (img : Path) : State :=
  set_scene s (S (next_node s))
    (alter (with_kind (fun k =>
              match k with
              | GeomNode geoms =>
                  GeomNode (geoms ++ [(generate_geom (geom_builder a),
                                       make_render_state (tileset_texture s img))])
              | other => other
              end)) (next_node s)
       (<[next_node s := fresh_node "tile" (GeomNode [])]> (scene s))).

(** What the cells of a grid leave alone: nodes constructed earlier other
    than [collider_parent], the registry and the image files. *)
Definition grid_frame (collider_parent : NodePath) (s s' : State) : Prop :=
  (next_node s <= next_node s')%nat
  /\ (forall p, (p < next_node s)%nat -> p <> collider_parent ->
        scene s' !! p = scene s !! p)
  /\ colliders s' = colliders s
  /\ read_image s' = read_image s.

(** The image file of the texture bound to the batch below a layer node. *)
Definition batch_image (s : State) (layer_node : NodePath) : option Path :=
  match children_of s layer_node with
  | cluster :: _ =>
      match geoms_of s cluster with
      | (_, rs) :: _ => Some (tex_file (rs_texture rs))
      | [] => None
      end
  | [] => None
  end.

(** The tileset declared second in the map. *)
Definition second_declared (m : TiledMap) : option Tileset :=
  nth_error (dict_values (tilesets m)) 1.

Definition empty_state : State :=
  MkState 0 ∅ ∅ (fun _ => MkImageFile 128 64 128 64 4).

Definition atlas_named (name : string) (first count : Z) : Tileset :=
  MkTileset name first count 32 32 0 0 4 (Some (MkPath false [name]))
    (Some 128) (Some 64) None.

(** Two tilesets, declared in this order: gids 1..8 and gids 9..16. *)
Definition two_atlas_map : TiledMap :=
  MkTiledMap false "orthogonal" (32, 32)%Q
    [(1, atlas_named "ground.png" 1 8); (9, atlas_named "walls.png" 9 8)]
    [] (MkPath false ["maps"; "level.tmx"]%string).

(** *** A tile object with a collider *)

(** One 32x32 tile whose object layer holds a 32x16 rectangle. *)
Definition crate_rectangle : TiledObject :=
  MkTiledObject "" (0, 0)%Q (32, 16)%Q 0 RectangleShape.

Definition crate_tile : Tile :=
  MkTile 0 (Some (ObjectLayer (MkLayerHeader "shapes" 1) [crate_rectangle])).

Definition crate_tileset : Tileset :=
  MkTileset "crate" 1 1 32 32 0 0 1 (Some (MkPath false ["crate.png"%string]))
    (Some 32) (Some 32) (Some [(0, crate_tile)]).

Definition crate_map : TiledMap :=
  MkTiledMap false "orthogonal" (32, 32)%Q [(1, crate_tileset)] []
    (MkPath false ["maps"; "level.tmx"]%string).

(** The crate tile placed as a 64x64 object. *)
Definition big_crate : TiledObject :=
  MkTiledObject "big_crate" (100, 200)%Q (64, 64)%Q 0 (TileShape 1).

(** The registry and scene once the map's tile colliders are loaded. *)
Definition crate_state : State := fst (load_tile_colliders crate_map empty_state).

(** *** Further example documents and states *)

(** An isometric map with a tileset that has colliders and with layers. *)
Definition isometric_map : TiledMap :=
  MkTiledMap false "isometric" (32, 32)%Q [(1, crate_tileset)]
    [TileLayer (MkLayerHeader "ground" 1) (Some [[1; 1]]);
     ObjectLayer (MkLayerHeader "things" 1) [big_crate]]
    (MkPath false ["maps"; "iso.tmx"]%string).

(** The arranger after the crate tile has been added at the origin. *)
Definition crate_arranger : TileArranger :=
  match TileArranger_add_tile (new_TileArranger crate_tileset) 1 0 0 with
  | Ok a => a
  | Raise _ => new_TileArranger crate_tileset
  end.

(** A state in which gid 5 has a collider, the node 0. *)
Definition state_with_collider_5 : State :=
  MkState 1 {[ 0%nat := fresh_node "collision_node" (CollisionNode []) ]}
    {[ 5 := 0%nat ]} (fun _ => MkImageFile 128 64 128 64 4).

(** A state in which gid 0, the gid of an empty cell, has a collider, the
    node 0, and no other gid has one. *)
Definition state_with_collider_0 : State :=
  MkState 1 {[ 0%nat := fresh_node "collision_node" (CollisionNode []) ]}
    {[ 0 := 0%nat ]} (fun _ => MkImageFile 128 64 128 64 4).

Definition background_layer : Layer :=
  ImageLayer (MkLayerHeader "background" (1 # 2)) (MkPath false ["bg.png"%string]).

(** Every tile of every tileset of the map has a positive global id, as
    in a document where gid 0 stands for the empty cell. *)
Definition gids_positive (m : TiledMap) : Prop :=
  Forall (fun ts =>
            match tiles ts with
            | None => True
            | Some d => Forall (fun t => 0 < firstgid ts + tile_id t) (dict_values d)
            end)
         (dict_values (tilesets m)).

(** ** Definitions used to state further properties *)

(** Where the flips send the point (x, 0, z) of the tile's local frame:
    the diagonal flip first, then the horizontal, then the vertical. *)
Definition flipped_point (d h v : bool) (x z : Q) : LVecBase3 :=
  let '(x1, z1) := if d then (1 - z, - 1 - x)%Q else (x, z) in
  let x2 := if h then (1 - x1)%Q else x1 in
  let z2 := if v then (1 - z1)%Q else z1 in
  V3 x2 0 z2.

(** The three flip bits of a gid: diagonal, horizontal, vertical. *)
Definition flip_bits (gid : Z) : bool * bool * bool :=
  (Z.testbit gid 29, Z.testbit gid 31, Z.testbit gid 30).

(** A tile that lies inside the atlas image: sizes are positive, margin
    and spacing are not negative, a full row of tiles fits across the
    image, and the row of this tile fits down the image. *)
Definition tile_in_atlas (ts : Tileset) (tile_id : Z) : Prop :=
  0 < tile_width ts /\ 0 < tile_height ts /\ 0 <= margin ts /\ 0 <= spacing ts
  /\ 0 < columns ts /\ 0 <= tile_id
  /\ exists iw ih,
       image_width ts = Some iw /\ image_height ts = Some ih
       /\ margin ts + columns ts * (tile_width ts + spacing ts) - spacing ts <= iw
       /\ margin ts + (tile_id / columns ts + 1) * (tile_height ts + spacing ts)
          - spacing ts <= ih.

(** An atlas on which the engine's single precision is exact: the image
    is 2^a wide and 2^b high, with a and b at most 24. *)
Definition dyadic_atlas (ts : Tileset) (a b : Z) : Prop :=
  0 <= a <= 24 /\ 0 <= b <= 24
  /\ image_width ts = Some (2 ^ a) /\ image_height ts = Some (2 ^ b).

(** *** What a run of the loader leaves alone *)

(** [frame_from n s s']: from [s] to [s'] no node is forgotten, the nodes
    with a reference below [n] are as they were, and so are the registry
    and the image files. *)
Definition frame_from (n : nat) (s s' : State) : Prop :=
  (next_node s <= next_node s')%nat
  /\ (forall p, (p < n)%nat -> scene s' !! p = scene s !! p)
  /\ colliders s' = colliders s
  /\ read_image s' = read_image s.

(** [extends s s']: every node that [s] has constructed is unchanged in
    [s'], and so are the registry and the image files. *)
Definition extends (s s' : State) : Prop := frame_from (next_node s) s s'.

(** The record of node [p] in [s'] is its record in [s], field by field:
    name, kind with the content of the kind, position, roll, scale,
    render state and children. *)
Definition record_kept (s s' : State) (p : NodePath) : Prop :=
  match scene s !! p, scene s' !! p with
  | Some n, Some n' =>
      node_name n' = node_name n /\ node_kind n' = node_kind n
      /\ node_pos n' = node_pos n /\ node_r n' = node_r n
      /\ node_scale n' = node_scale n /\ node_state n' = node_state n
      /\ node_children n' = node_children n
  | None, None => True
  | _, _ => False
  end.

(** [composed_over s s']: what composing leaves of [s] in [s'].  No node
    reference is reused; the registry and the image files are as they
    were; a node constructed before that the registry does not hold is
    unchanged; a node that the registry holds keeps its record (being
    attached below a collider location is the location's change). *)
Definition composed_over (s s' : State) : Prop :=
  (next_node s <= next_node s')%nat
  /\ colliders s' = colliders s
  /\ read_image s' = read_image s
  /\ (forall p, (p < next_node s)%nat ->
        (forall gid, colliders s !! gid <> Some p) ->
        scene s' !! p = scene s !! p)
  /\ (forall gid c, colliders s !! gid = Some c -> (c < next_node s)%nat ->
        record_kept s s' c).

(** [touches_from n c Q]: run in a state that has constructed at least [n]
    nodes, [c] leaves the nodes below [n] alone, and what it returns
    satisfies [Q]. *)
Definition touches_from {A} (n : nat) (c : M A) (Q : A -> Prop) : Prop :=
  forall s, (n <= next_node s)%nat ->
    frame_from n s (fst (c s)) /\ forall a, snd (c s) = Ok a -> Q a.

(** A node reference that is not below [n]. *)
Definition from (n : nat) (p : NodePath) : Prop := (n <= p)%nat.

(** [load_layer] as a computation on the state, the layer set aside. *)
Definition compose_layer (m : TiledMap) (layer : Layer) : M NodePath :=
  fun s => snd (load_layer m layer s).

(** The loop shared by object layers, layer groups and the map root:
    compose each element and hang its node below [parent_path]. *)
Definition attach_each {A} (compose : A -> M NodePath) (parent_path : NodePath)
    (xs : list A) : M unit :=
  for_each xs (fun x => node ← compose x; reparent_to node parent_path).

(** What composing an element promises: the node it returns is the first
    one it constructs, and [post] holds of that node in the state it
    leaves. *)
Definition returns_first {A} (compose : A -> M NodePath)
    (post : A -> option PandaNode -> Prop) (x : A) : Prop :=
  forall s s1 p, compose x s = (s1, Ok p) ->
    p = next_node s /\ (p < next_node s1)%nat /\ post x (scene s1 !! p).

(** The node of a placed object: its name, position and roll. *)
Definition object_node (o : TiledObject) (nd : option PandaNode) : Prop :=
  exists n, nd = Some n
    /\ node_name n = obj_name o
    /\ node_pos n = V3 (fst (obj_coordinates o)) 0 (- snd (obj_coordinates o))
    /\ node_r n = obj_rotation o.

Definition layer_header (l : Layer) : LayerHeader :=
  match l with
  | TileLayer h _ | ObjectLayer h _ | ImageLayer h _ | LayerGroup h _ | BaseLayer h => h
  end.

(** The node of a composed layer: it carries the layer's name and has not
    been moved, turned or scaled. *)
Definition layer_node_of (l : Layer) (nd : option PandaNode) : Prop :=
  exists n, nd = Some n
    /\ node_name n = layer_name (layer_header l)
    /\ node_kind n = PlainNode
    /\ node_pos n = V3 0 0 0 /\ node_r n = 0%Q /\ node_scale n = V3 1 1 1.

(** *** The colliders of a grid *)

(** The collider and the position the loop places for each cell of a row
    whose gid, as stored in the cell, is a key of the registry. *)
Definition placed_in_row (reg : gmap Z NodePath) (m : TiledMap) (j : Z)
    (cells : list (Z * Z)) : list (NodePath * LVecBase3) :=
  flat_map (fun '(i, gid) =>
              match reg !! gid with
              | Some c => [(c, V3 (inject_Z i * fst (tile_size m)) 0
                                  (inject_Z (- j) * snd (tile_size m)))]
              | None => []
              end) cells.

Definition placed_in_grid (reg : gmap Z NodePath) (m : TiledMap)
    (rows : list (Z * list Z)) : list (NodePath * LVecBase3) :=
  flat_map (fun '(j, row) => placed_in_row reg m j (enumerate row)) rows.

(** A collider location: a node at [pos] whose only child is [c]. *)
Definition collider_location (s : State) (location : NodePath)
    (placed : NodePath * LVecBase3) : Prop :=
  children_of s location = [fst placed] /\ pos_of s location = snd placed.

(** The cells of a grid that are not empty. *)
Definition tiles_in_grid (data : list (list Z)) : nat :=
  length (List.filter (fun gid => negb (gid =? 0)) (concat data)).

(** The state after the batch node has been generated in [s3] and hung,
    with the collider parent below it, below the layer node. *)
Definition tile_layer_finished (s3 : State) (a : TileArranger) (img : Path)
    (layer_node collider_parent : NodePath) : State :=
  fst (reparent_to (next_node s3) layer_node
         (fst (reparent_to collider_parent (next_node s3) (node_generated s3 a img)))).

(** *** The shapes of a tileset's colliders *)

(** What [load_collider] raises for an object, if it raises:
    [UnsupportedError] for a shape that is not a rectangle, the assertion
    of the box constructor for a rectangle without width or height. *)
Definition collider_error (o : TiledObject) : option Exn :=
  match obj_shape o with
  | RectangleShape =>
      if Qeq_bool (fst (obj_size o)) 0 || Qeq_bool (snd (obj_size o)) 0
      then Some AssertionError
      else None
  | _ => Some (UnsupportedError (Msg "Non-rectangular colliders not yet supported"))
  end.

(** The first error in a list of objects, in order. *)
Fixpoint first_error (objs : list TiledObject) : option Exn :=
  match objs with
  | [] => None
  | o :: rest =>
      match collider_error o with
      | Some e => Some e
      | None => first_error rest
      end
  end.

(** The objects of the object layer a tile carries, if it carries one. *)
Definition collider_shapes (t : Tile) : list TiledObject :=
  match tile_objects t with
  | Some (ObjectLayer _ tiled_objects) => tiled_objects
  | _ => []
  end.

(** The tiles of a tileset, in the order of its dict. *)
Definition tiles_of (ts : Tileset) : list Tile :=
  match tiles ts with
  | Some d => dict_values d
  | None => []
  end.

(** The tiles of a map, each with its tileset, in the order
    [load_tile_colliders] visits them. *)
Definition map_tiles (m : TiledMap) : list (Tileset * Tile) :=
  flat_map (fun ts => map (pair ts) (tiles_of ts)) (dict_values (tilesets m)).

(** The gid under which the tile of a tileset is registered. *)
Definition global_id (x : Tileset * Tile) : Z := firstgid (fst x) + tile_id (snd x).

(** The collider shapes of the map, in the order [load_tile_colliders]
    visits them: tileset by tileset, tile by tile, object by object. *)
Definition map_collider_shapes (m : TiledMap) : list TiledObject :=
  flat_map (fun x => collider_shapes (snd x)) (map_tiles m).

(** The gids under which [load_tile_colliders] registers: those of the
    tiles that carry an object layer. *)
Definition collider_gid (m : TiledMap) (gid : Z) : Prop :=
  exists x, In x (map_tiles m) /\ ~ no_object_layer (snd x) /\ gid = global_id x.

(** The box that stands for a rectangle of a tile's object layer. *)
Definition collider_box (o : TiledObject) : CollisionSolid :=
  CollisionBox (V3 0 (-16) (- snd (obj_size o))) (V3 (fst (obj_size o)) 16 0).

(** What loading colliders leaves alone: the nodes constructed before, the
    registry outside the gids [K], and the image files. *)
Definition registry_frame (K : Z -> Prop) (s s' : State) : Prop :=
  (next_node s <= next_node s')%nat
  /\ (forall p, (p < next_node s)%nat -> scene s' !! p = scene s !! p)
  /\ (forall gid, ~ K gid -> colliders s' !! gid = colliders s !! gid)
  /\ read_image s' = read_image s.

(** *** Example documents *)

(** The crate map with a ground layer of two cells, an object layer with
    one crate and a background image. *)
Definition crate_level : TiledMap :=
  MkTiledMap false "orthogonal" (32, 32)%Q [(1, crate_tileset)]
    [TileLayer (MkLayerHeader "ground" 1) (Some [[1; 0]]);
     ObjectLayer (MkLayerHeader "things" 1) [big_crate];
     background_layer]
    (MkPath false ["maps"; "level.tmx"]%string).

(** A tile whose object layer holds a rectangle without size and then an
    ellipse, and a map that declares it. *)
Definition barrel_tile : Tile :=
  MkTile 3 (Some (ObjectLayer (MkLayerHeader "shapes" 1)
                    [MkTiledObject "" (0, 0)%Q (0, 0)%Q 0 RectangleShape;
                     MkTiledObject "" (0, 0)%Q (32, 32)%Q 0 EllipseShape])).

Definition barrel_map : TiledMap :=
  MkTiledMap false "orthogonal" (32, 32)%Q
    [(1, crate_tileset);
     (2, MkTileset "barrels" 2 4 32 32 0 0 2 (Some (MkPath false ["barrels.png"%string]))
           (Some 64) (Some 64) (Some [(3, barrel_tile)]))]
    [] (MkPath false ["maps"; "cellar.tmx"]%string).

(** A group of two layers: the background image and one placed crate. *)
Definition scenery_group : Layer :=
  LayerGroup (MkLayerHeader "scenery" 1)
    (Some [background_layer; ObjectLayer (MkLayerHeader "things" 1) [big_crate]]).

(** *** Where a tile's quad goes *)

(** An integer that the engine's single precision holds exactly. *)
Definition single_exact (n : Z) : Prop := - 2 ^ 24 <= n <= 2 ^ 24.

(** A cell whose quad the engine places without rounding: the tile size,
    the cell's offsets and the four edges of the quad are exact. *)
Definition cell_exact (ts : Tileset) (x y : Z) : Prop :=
  Forall single_exact
    [tile_width ts; tile_height ts; x; - y - 1;
     x * tile_width ts; (x + 1) * tile_width ts;
     (- y - 1) * tile_height ts; - y * tile_height ts].

(** The corner of the quad of cell [(x, y)] that the point [(px, pz)] of
    the unit quad becomes when the tile is not flipped: moved to the cell
    (rows grow downwards, and the quad hangs below the row's line), then
    scaled to the tile size of the tileset. *)
Definition cell_corner (ts : Tileset) (x y : Z) (px pz : Q) : LVecBase3 :=
  V3 ((px + inject_Z x) * inject_Z (tile_width ts)) 0
     ((pz + inject_Z (- y - 1)) * inject_Z (tile_height ts)).

(** *** Induction over layers, through the layers of a group *)

Section Layer_induction.
Variable P : Layer -> Prop.
Hypothesis Htile : forall h data, P (TileLayer h data).
Hypothesis Hobject : forall h objs, P (ObjectLayer h objs).
Hypothesis Himage : forall h image, P (ImageLayer h image).
Hypothesis Hbase : forall h, P (BaseLayer h).
Hypothesis Hgroup_none : forall h, P (LayerGroup h None).
Hypothesis Hgroup : forall h ls, Forall P ls -> P (LayerGroup h (Some ls)).

Fixpoint Layer_nested_ind (l : Layer) : P l :=
  match l with
  | TileLayer h data => Htile h data
  | ObjectLayer h objs => Hobject h objs
  | ImageLayer h image => Himage h image
  | BaseLayer h => Hbase h
  | LayerGroup h None => Hgroup_none h
  | LayerGroup h (Some ls) =>
      Hgroup h ls
        ((fix all (ls : list Layer) : Forall P ls :=
            match ls with
            | [] => @List.Forall_nil _ P
            | l :: rest => @List.Forall_cons _ P l rest (Layer_nested_ind l) (all rest)
            end) ls)
  end.
End Layer_induction.

(** *** Proof automation: lookups in a scene store after updates *)

Ltac heap_lookup :=
  repeat first
    [ rewrite lookup_alter_eq
    | rewrite lookup_insert_eq
    | rewrite lookup_alter_ne by lia
    | rewrite lookup_insert_ne by lia ].

(** * Properties *)

(** ** Bits of the flag mask *)

Lemma ALL_FLAGS_testbit n : Z.testbit ALL_FLAGS n = is_flag_bit n.
Proof.
  unfold is_flag_bit.
  destruct (Z.ltb_spec n 0).
  - rewrite Z.testbit_neg_r by lia. symmetry. apply andb_false_iff. left. apply Z.leb_gt. lia.
  - destruct (Z.ltb_spec n 32).
    + assert (Hn : In n (map Z.of_nat (seq 0 32))).
      { apply in_map_iff. exists (Z.to_nat n). split; [lia|]. apply in_seq. lia. }
      simpl in Hn. repeat (destruct Hn as [<- | Hn]; [reflexivity|]). destruct Hn.
    + rewrite Z.bits_above_log2;
        [|vm_compute; discriminate | change (Z.log2 ALL_FLAGS) with 31; lia].
      symmetry. apply andb_false_iff. right. apply Z.leb_gt. lia.
Qed.

Lemma clear_flags_testbit gid n :
  Z.testbit (clear_flags gid) n = Z.testbit gid n && negb (is_flag_bit n).
Proof.
  unfold clear_flags. rewrite Z.land_spec.
  destruct (Z.ltb_spec n 0).
  - rewrite !Z.testbit_neg_r by lia. reflexivity.
  - rewrite Z.lnot_spec by lia. rewrite ALL_FLAGS_testbit. reflexivity.
Qed.

Lemma land_pow2_zero gid k :
  0 <= k -> Z.testbit gid k = false -> Z.land gid (2 ^ k) = 0.
Proof.
  intros Hk Hb. apply Z.bits_inj'. intros n Hn.
  rewrite Z.land_spec, Z.bits_0, Z.pow2_bits_eqb by lia.
  destruct (Z.eqb_spec k n) as [->|]; [rewrite Hb; reflexivity | apply andb_false_r].
Qed.

Lemma flag_bits_cleared h v d x : clear_flags (flag_bits h v d x) = 0.
Proof. destruct h, v, d, x; reflexivity. Qed.

Lemma clear_flags_lor gid h v d x :
  clear_flags (Z.lor gid (flag_bits h v d x)) = clear_flags gid.
Proof.
  unfold clear_flags. rewrite Z.land_lor_distr_l.
  fold (clear_flags (flag_bits h v d x)). rewrite flag_bits_cleared.
  apply Z.lor_0_r.
Qed.

Lemma clear_flags_idem gid : clear_flags (clear_flags gid) = clear_flags gid.
Proof.
  unfold clear_flags. rewrite <- Z.land_assoc, Z.land_diag. reflexivity.
Qed.

(** ** Transform codec *)

(** C4. The gid returned by [extract_tile_transform] is the input with the
    four flag bits 28..31 cleared and every other bit unchanged, for every
    gid; and when none of the diagonal, horizontal and vertical flip bits
    is set the returned transform is the identity. *)
Theorem extract_tile_transform_clears_flags (gid : Z) :
  (forall n, Z.testbit (fst (extract_tile_transform gid)) n
             = if is_flag_bit n then false else Z.testbit gid n)
  /\ (Z.testbit gid 29 = false -> Z.testbit gid 31 = false -> Z.testbit gid 30 = false ->
      extract_tile_transform gid = (clear_flags gid, ident_mat)).
Proof.
  split.
  - intros n. change (fst (extract_tile_transform gid)) with (clear_flags gid).
    rewrite clear_flags_testbit. destruct (is_flag_bit n); [apply andb_false_r | apply andb_true_r].
  - intros Hd Hh Hv. unfold extract_tile_transform.
    change DIAGONAL_FLIP_FLAG with (2 ^ 29).
    change HORIZONTAL_FLIP_FLAG with (2 ^ 31).
    change VERTICAL_FLIP_FLAG with (2 ^ 30).
    rewrite !land_pow2_zero by (assumption || lia). reflexivity.
Qed.

(** A gid that carries only the hexagonal-rotation flag. *)
Lemma extract_tile_transform_clears_flags_witness :
  Z.testbit 0x10000005 29 = false /\ Z.testbit 0x10000005 31 = false
  /\ Z.testbit 0x10000005 30 = false
  /\ extract_tile_transform 0x10000005 = (5, ident_mat).
Proof.
  split; [reflexivity|]. split; [reflexivity|]. split; [reflexivity|].
  exact (proj2 (extract_tile_transform_clears_flags 0x10000005) eq_refl eq_refl eq_refl).
Defined.

(** ** Map assembler: [find_source] *)

Lemma scan_tilesets_ok gid l ts :
  scan_tilesets gid l = Ok ts -> In ts l /\ in_range gid ts = true.
Proof.
  induction l as [|t l IH]; simpl; [discriminate|].
  destruct (in_range gid t) eqn:E.
  - intros [= <-]. auto.
  - intros H. destruct (IH H). auto.
Qed.

Lemma scan_tilesets_first gid pre ts post :
  Forall (fun t => in_range gid t = false) pre -> in_range gid ts = true ->
  scan_tilesets gid (pre ++ ts :: post) = Ok ts.
Proof.
  induction 1 as [|t pre Ht _ IH]; simpl; intros Hts.
  - rewrite Hts. reflexivity.
  - rewrite Ht. auto.
Qed.

Lemma scan_tilesets_none gid l :
  Forall (fun t => in_range gid t = false) l ->
  scan_tilesets gid l = Raise (ValueError (MsgInt "Could not find tileset for tile" gid)).
Proof.
  induction 1 as [|t l Ht _ IH]; simpl; [reflexivity|]. rewrite Ht. exact IH.
Qed.

Lemma in_range_iff gid ts :
  in_range gid ts = true <-> 0 <= gid - firstgid ts < tile_count ts.
Proof. unfold in_range. rewrite andb_true_iff, Z.leb_le, Z.ltb_lt. tauto. Qed.

(** C2. [find_source] clears the four flag bits and scans the tilesets in
    order: a tileset it returns is one of the map's and contains the
    cleaned gid in its range; the first tileset whose range contains the
    cleaned gid is the one returned; when no range contains it the lookup
    error is raised.  On the map with tilesets (1, 10) and (11, 5), gid 15
    gives the second tileset and gids 0 and 100 raise. *)
Theorem find_source_range :
  (forall m gid ts, find_source m gid = Ok ts ->
     In ts (dict_values (tilesets m))
     /\ 0 <= clear_flags gid - firstgid ts < tile_count ts)
  /\ (forall m gid pre ts post,
        dict_values (tilesets m) = pre ++ ts :: post ->
        Forall (fun t => ~ 0 <= clear_flags gid - firstgid t < tile_count t) pre ->
        0 <= clear_flags gid - firstgid ts < tile_count ts ->
        find_source m gid = Ok ts)
  /\ (forall m gid,
        Forall (fun t => ~ 0 <= clear_flags gid - firstgid t < tile_count t)
               (dict_values (tilesets m)) ->
        find_source m gid
        = Raise (ValueError (MsgInt "Could not find tileset for tile" (clear_flags gid))))
  /\ find_source two_tilesets_map 15 = Ok (range_tileset "second" 11 5)
  /\ find_source two_tilesets_map 0
     = Raise (ValueError (MsgInt "Could not find tileset for tile" 0))
  /\ find_source two_tilesets_map 100
     = Raise (ValueError (MsgInt "Could not find tileset for tile" 100)).
Proof.
  assert (Hneg : forall gid l,
    Forall (fun t => ~ 0 <= gid - firstgid t < tile_count t) l ->
    Forall (fun t => in_range gid t = false) l).
  { intros gid l. induction 1 as [|t l Ht _ IH]; constructor; [|exact IH].
    destruct (in_range gid t) eqn:E; [|reflexivity].
    apply in_range_iff in E. contradiction. }
  split; [|split; [|split; [|repeat split]]].
  - intros m gid ts H. apply scan_tilesets_ok in H. destruct H as [Hin H].
    split; [exact Hin | apply in_range_iff, H].
  - intros m gid pre ts post Hl Hpre Hts. unfold find_source. rewrite Hl.
    apply scan_tilesets_first; [apply Hneg, Hpre | apply in_range_iff, Hts].
  - intros m gid Hall. unfold find_source. apply scan_tilesets_none, Hneg, Hall.
Qed.

(** C10. Setting any subset of the four flag bits on a gid does not change
    what [find_source] returns or raises: it is what [find_source] gives for
    the gid with all four bits cleared. *)
Theorem find_source_ignores_flags (m : TiledMap) (gid : Z) (h v d x : bool) :
  find_source m (Z.lor gid (flag_bits h v d x)) = find_source m (clear_flags gid).
Proof.
  unfold find_source. fold (clear_flags (Z.lor gid (flag_bits h v d x))).
  fold (clear_flags (clear_flags gid)).
  rewrite clear_flags_lor, clear_flags_idem. reflexivity.
Qed.

(** ** Atlas mapper *)

(** C7. On the 4-column atlas of 32x32 tiles in a 128x64 image, local
    index 5 is at row 1, column 1 (quotient and remainder by the column
    count), its pixel origin is (32, 32), the transform is computed without
    error, and each corner of the unit quad gets a texture coordinate
    inside the unit square: u is (x + 1) / 4 and v is y / 2; so do the
    six rows the batch builder writes for the tile. *)
Theorem atlas_local_index_5 :
  atlas_cell atlas_4x2 5 = (5 / columns atlas_4x2, 5 mod columns atlas_4x2)
  /\ atlas_cell atlas_4x2 5 = (1, 1)
  /\ atlas_origin atlas_4x2 5 = (32, 32)
  /\ exists uv, get_tile_uv_transform atlas_4x2 5 = Ok uv
     /\ Forall (fun '(x, y) =>
          let '(u, v) := texcoord_of uv x y in
          (u == (x + 1) / 4 /\ v == y / 2 /\ 0 <= u <= 1 /\ 0 <= v <= 1)%Q)
        [(0, 0); (0, 1); (1, 1); (1, 0)]%Q
     /\ Forall (fun r =>
          (0 <= fst (row_texcoord r) <= 1 /\ 0 <= snd (row_texcoord r) <= 1)%Q)
        (vertex_data (TileGeomBuilder_add_tile (MkBuilder []) ident_mat uv)).
Proof.
  split; [reflexivity|]. split; [reflexivity|]. split; [reflexivity|].
  eexists. split; [reflexivity|].
  split; repeat constructor; vm_compute; congruence.
Qed.

(** ** Entry point *)

(** C1. When the parsed document is infinite or its orientation is not
    "orthogonal", [load_map] raises [UnsupportedError] and the state is the
    one it started from: no node has been constructed and the collider
    registry has not been touched. *)
Theorem load_map_rejects_unsupported
    (parse_map : Path -> Result TiledMap) (path : Path) (doc : TiledMap) (s : State) :
  parse_map path = Ok doc ->
  infinite doc = true \/ orientation doc <> "orthogonal"%string ->
  exists msg, load_map parse_map path s = (s, Raise (UnsupportedError msg)).
Proof.
  intros Hparse Hbad. unfold load_map, mbind, M_bind, lift. rewrite Hparse.
  destruct (infinite doc) eqn:Hinf.
  - eexists. reflexivity.
  - destruct Hbad as [Hbad | Hbad]; [discriminate|].
    apply String.eqb_neq in Hbad. rewrite Hbad. eexists. reflexivity.
Qed.

(** ** Collider registry *)

Lemma load_colliders_unfold ts d :
  tiles ts = Some d ->
  load_colliders ts = for_each (dict_values d) (collider_of_tile ts).
Proof. intros H. unfold load_colliders. rewrite H. reflexivity. Qed.

Lemma for_each_app {A} (xs ys : list A) (body : A -> M unit) s :
  for_each (xs ++ ys) body s
  = match for_each xs body s with
    | (s', Ok _) => for_each ys body s'
    | (s', Raise e) => (s', Raise e)
    end.
Proof.
  revert s. induction xs as [|x xs IH]; intros s; simpl; [reflexivity|].
  unfold mbind, M_bind. destruct (body x s) as [s1 [[]|e]]; [apply IH | reflexivity].
Qed.

Lemma skip_tiles_without_objects ts l s :
  Forall no_object_layer l -> for_each l (collider_of_tile ts) s = (s, Ok tt).
Proof.
  induction 1 as [|t l Ht _ IH]; simpl; [reflexivity|].
  unfold mbind, M_bind, collider_of_tile, no_object_layer in *.
  destruct (tile_objects t) as [[]|]; try contradiction; exact IH.
Qed.

(** C8. A tileset in which exactly one tile carries an object layer, made
    of a single rectangle of size (32, 16): starting from an empty
    registry, [load_colliders] succeeds and leaves exactly one entry, under
    [firstgid + tile.id]; the entry is a new collision node holding the one
    box of that rectangle; and [get_collider] gives [None] for every other
    gid. *)
Theorem load_colliders_single_rectangle
    (ts : Tileset) (d : list (Z * Tile)) (pre post : list Tile) (t : Tile)
    (h : LayerHeader) (rect : TiledObject) (s : State) :
  tiles ts = Some d ->
  dict_values d = pre ++ t :: post ->
  Forall no_object_layer pre ->
  Forall no_object_layer post ->
  tile_objects t = Some (ObjectLayer h [rect]) ->
  obj_shape rect = RectangleShape ->
  obj_size rect = (32, 16)%Q ->
  colliders s = ∅ ->
  exists s',
    load_colliders ts s = (s', Ok tt)
    /\ colliders s' = {[ firstgid ts + tile_id t := next_node s ]}
    /\ solids_of s' (next_node s) = [CollisionBox (V3 0 (-16) (-16)) (V3 32 16 0)]
    /\ (forall gid, gid <> firstgid ts + tile_id t -> get_collider gid s' = (s', Ok None)).
Proof.
  intros Htiles Hd Hpre Hpost Hobj Hshape Hsize Hempty.
  rewrite (load_colliders_unfold _ _ Htiles), Hd, for_each_app.
  rewrite (skip_tiles_without_objects _ _ _ Hpre). simpl.
  unfold mbind at 1. unfold M_bind at 1.
  unfold collider_of_tile at 1. rewrite Hobj. simpl.
  unfold mbind, M_bind, lift, load_collider. rewrite Hshape, Hsize. simpl.
  rewrite (skip_tiles_without_objects _ _ _ Hpost).
  eexists. split; [reflexivity|]. cbn [colliders set_colliders set_scene]. rewrite Hempty.
  split; [reflexivity|]. split.
  - unfold solids_of. simpl. rewrite lookup_alter_eq, lookup_insert_eq. reflexivity.
  - intros gid Hne. unfold get_collider. simpl.
    rewrite lookup_insert_ne by congruence. reflexivity.
Qed.

(** ** The registry has no entry for the empty cell *)

Lemma for_each_invariant {A} (P : State -> Prop) (xs : list A) (body : A -> M unit) :
  Forall (fun x => forall s, P s -> P (fst (body x s))) xs ->
  forall s, P s -> P (fst (for_each xs body s)).
Proof.
  induction 1 as [|x xs Hx _ IH]; intros s Hs; simpl; [exact Hs|].
  unfold mbind, M_bind. specialize (Hx s Hs).
  destruct (body x s) as [s1 [[]|e]]; simpl in *; [apply IH, Hx | exact Hx].
Qed.

Lemma collider_of_tile_keeps_empty_cell ts tile s :
  0 < firstgid ts + tile_id tile ->
  colliders s !! 0 = None ->
  colliders (fst (collider_of_tile ts tile s)) !! 0 = None.
Proof.
  intros Hpos Hs. unfold collider_of_tile.
  destruct (tile_objects tile) as [[h data|h objs|h image|h ls|h]|]; try exact Hs.
  unfold mbind at 1. unfold M_bind at 1. unfold construct at 1.
  set (s1 := set_scene s _ _). set (node := next_node s).
  assert (H1 : colliders s1 !! 0 = None) by exact Hs.
  unfold mbind at 1. unfold M_bind at 1.
  pose proof (for_each_invariant (fun s => colliders s !! 0 = None) objs
    (fun tiled_object => solid ← lift (load_collider tiled_object); add_solid node solid)) as Hloop.
  specialize (Hloop ltac:(
    apply Forall_forall; intros o _ s0 Hs0; unfold mbind, M_bind, lift;
    destruct (load_collider o); exact Hs0) s1 H1).
  destruct (for_each objs _ s1) as [s2 [[]|e]]; simpl in *; [|exact Hloop].
  rewrite lookup_insert_ne by lia. exact Hloop.
Qed.

Lemma load_colliders_keeps_empty_cell ts s :
  match tiles ts with
  | None => True
  | Some d => Forall (fun t => 0 < firstgid ts + tile_id t) (dict_values d)
  end ->
  colliders s !! 0 = None ->
  colliders (fst (load_colliders ts s)) !! 0 = None.
Proof.
  unfold load_colliders. destruct (tiles ts) as [d|]; intros Hpos Hs; [|exact Hs].
  apply (for_each_invariant (fun s => colliders s !! 0 = None)); [|exact Hs].
  induction Hpos as [|t l Ht _ IH]; constructor; [|exact IH].
  intros s0 Hs0. apply collider_of_tile_keeps_empty_cell; assumption.
Qed.

(** X1. On a map whose tiles all have positive gids, loading the tile
    colliders never registers anything under gid 0, the empty cell. *)
Lemma load_tile_colliders_keeps_empty_cell m s :
  gids_positive m ->
  colliders s !! 0 = None ->
  colliders (fst (load_tile_colliders m s)) !! 0 = None.
Proof.
  unfold load_tile_colliders, gids_positive. intros Hpos Hs.
  apply (for_each_invariant (fun s => colliders s !! 0 = None)); [|exact Hs].
  induction Hpos as [|ts l Hts _ IH]; constructor; [|exact IH].
  intros s0 Hs0. apply load_colliders_keeps_empty_cell; assumption.
Qed.

(** ** Tile arranger *)

Lemma true_div_ok (a b : Q) : ~ (b == 0)%Q -> true_div a b = Ok (a / b)%Q.
Proof.
  intros Hb. unfold true_div. destruct (Qeq_bool b 0) eqn:E; [|reflexivity].
  apply Qeq_bool_eq in E. contradiction.
Qed.

Lemma inject_Z_nonzero (z : Z) : z <> 0 -> ~ (inject_Z z == 0)%Q.
Proof. intros Hz H. apply Hz. unfold Qeq in H. simpl in H. lia. Qed.

Lemma get_tile_uv_transform_ok ts tile_id :
  atlas_ready ts -> exists uv, get_tile_uv_transform ts tile_id = Ok uv.
Proof.
  intros [[iw [Hiw Hiw0]] [[ih [Hih Hih0]] Hc]]. unfold get_tile_uv_transform.
  rewrite Hih, Hiw.
  rewrite (true_div_ok _ _ (inject_Z_nonzero _ Hiw0)).
  rewrite (true_div_ok _ _ (inject_Z_nonzero _ Hih0)).
  simpl. apply Z.eqb_neq in Hc. rewrite Hc.
  destruct (atlas_origin ts tile_id). eexists. reflexivity.
Qed.

Lemma builder_add_tile_length b shape uv :
  length (vertex_data (TileGeomBuilder_add_tile b shape uv))
  = (length (vertex_data b) + 6)%nat.
Proof.
  unfold TileGeomBuilder_add_tile. simpl. rewrite !length_app. simpl. lia.
Qed.

Lemma add_tile_empty a x y : TileArranger_add_tile a 0 x y = Ok a.
Proof. reflexivity. Qed.

Lemma add_tile_ok a gid x y :
  atlas_ready (tileset a) -> gid <> 0 ->
  exists a', TileArranger_add_tile a gid x y = Ok a'
    /\ tileset a' = tileset a
    /\ length (vertex_data (geom_builder a'))
       = (length (vertex_data (geom_builder a)) + 6)%nat.
Proof.
  intros Hready Hgid. unfold TileArranger_add_tile.
  apply Z.eqb_neq in Hgid. unfold truthy. rewrite Hgid. simpl.
  destruct (get_tile_uv_transform_ok (tileset a)
              (Z.land gid (Z.lnot ALL_FLAGS) - firstgid (tileset a)) Hready) as [uv Huv].
  rewrite Huv. simpl. eexists. split; [reflexivity|]. split; [reflexivity|].
  simpl. apply builder_add_tile_length.
Qed.

(** ** Stepping through the loader *)

Lemma tile_layer_cell_none m cp j a i gid a' s :
  TileArranger_add_tile a gid i j = Ok a' ->
  colliders s !! gid = None ->
  tile_layer_cell m cp j a (i, gid) s = (s, Ok a').
Proof.
  intros Ha Hc. unfold tile_layer_cell. destruct (tile_size m) as [tw th].
  unfold mbind, M_bind, lift, get_collider. rewrite Ha, Hc. reflexivity.
Qed.

Lemma tile_layer_cell_some m cp j a i gid a' c s :
  TileArranger_add_tile a gid i j = Ok a' ->
  colliders s !! gid = Some c ->
  tile_layer_cell m cp j a (i, gid) s
  = (collider_placed s cp c
       (V3 (inject_Z i * fst (tile_size m)) 0 (inject_Z (- j) * snd (tile_size m))),
     Ok a').
Proof.
  intros Ha Hc. unfold tile_layer_cell. destruct (tile_size m) as [tw th].
  unfold mbind, M_bind, lift, get_collider. rewrite Ha, Hc. reflexivity.
Qed.

Lemma tile_layer_cell_raise m cp j a i gid e s :
  TileArranger_add_tile a gid i j = Raise e ->
  tile_layer_cell m cp j a (i, gid) s = (s, Raise e).
Proof.
  intros Ha. unfold tile_layer_cell. destruct (tile_size m) as [tw th].
  unfold mbind, M_bind, lift. rewrite Ha. reflexivity.
Qed.

Lemma generate_node_ok a img s :
  ts_image (tileset a) = Some img ->
  TileArranger_generate_node a s = (node_generated s a img, Ok (next_node s)).
Proof.
  intros Himg. unfold TileArranger_generate_node, load_tileset_image. rewrite Himg.
  reflexivity.
Qed.

Lemma generate_node_no_image a s :
  ts_image (tileset a) = None ->
  TileArranger_generate_node a s
  = (set_scene s (S (next_node s))
       (<[next_node s := fresh_node "tile" (GeomNode [])]> (scene s)),
     Raise AssertionError).
Proof.
  intros Himg. unfold TileArranger_generate_node, load_tileset_image. rewrite Himg.
  reflexivity.
Qed.

#[local] Arguments tile_layer_cell : simpl never.
#[local] Arguments TileArranger_generate_node : simpl never.
#[local] Arguments TileArranger_add_tile : simpl never.

(** C9 (as amended). A 2x1 tile layer with gids [5, 0], on a map whose
    tileset under key 1 is accepted by the atlas mapper and has an image,
    in a state whose registry has no entry for gid 0.  The layer is
    composed; the one mesh of the batch below the layer node holds the
    rows of the arranger after gid 5 alone was added at cell (0, 0): six
    vertices in one triangle list, the empty cell adds none.  Below the
    collider parent there is exactly one collider location, at the
    position of cell (0, 0) and holding the registered node, when gid 5
    has a registry entry, and nothing when it has none. *)
Theorem tile_layer_5_0
    (m : TiledMap) (h : LayerHeader) (ts : Tileset) (img : Path) (s : State) :
  dict_get (tilesets m) 1 = Some ts ->
  atlas_ready ts ->
  ts_image ts = Some img ->
  colliders s !! 0 = None ->
  let layer_node := next_node s in
  let collider_parent := S (next_node s) in
  exists s' a5 cluster geom rs,
    load_tile_layer m h (Some [[5; 0]]) s = (s', Ok layer_node)
    /\ TileArranger_add_tile (new_TileArranger ts) 5 0 0 = Ok a5
    /\ children_of s' layer_node = [cluster]
    /\ geoms_of s' cluster = [(geom, rs)]
    /\ geom_vertex_data geom = vertex_data (geom_builder a5)
    /\ length (geom_vertex_data geom) = 6%nat
    /\ geom_triangles geom = 6%nat
    /\ children_of s' cluster = [collider_parent]
    /\ match colliders s !! 5 with
       | None => children_of s' collider_parent = []
       | Some c =>
           exists location,
             children_of s' collider_parent = [location]
             /\ children_of s' location = [c]
             /\ pos_of s' location
                = V3 (0 * fst (tile_size m)) 0 (inject_Z (- 0) * snd (tile_size m))
       end.
Proof.
  intros Hts Hready Himg H0 layer_node collider_parent.
  destruct (add_tile_ok (new_TileArranger ts) 5 0 0 Hready ltac:(lia))
    as [a5 [Ha5 [Hts5 Hlen]]].
  assert (Himg5 : ts_image (tileset a5) = Some img) by (rewrite Hts5; exact Himg).
  unfold load_tile_layer, dict_getitem. rewrite Hts.
  unfold mbind, M_bind, lift, new_NodePath, construct. simpl.
  unfold mbind, M_bind.
  destruct (colliders s !! 5) as [c|] eqn:H5.
  - erewrite tile_layer_cell_some by (first [exact Ha5 | exact H5]). simpl.
    erewrite tile_layer_cell_none by (first [apply add_tile_empty | exact H0]). simpl.
    rewrite (generate_node_ok _ _ _ Himg5). simpl.
    eexists _, a5, (S (S (S (next_node s)))), (generate_geom (geom_builder a5)), _.
    split; [reflexivity|]. split; [exact Ha5|].
    unfold children_of, geoms_of, pos_of, layer_node, collider_parent. simpl.
    heap_lookup. simpl.
    repeat split; try reflexivity; try exact Hlen.
    exists (S (S (next_node s))). heap_lookup. simpl. repeat split; reflexivity.
  - erewrite tile_layer_cell_none by (first [exact Ha5 | exact H5]). simpl.
    erewrite tile_layer_cell_none by (first [apply add_tile_empty | exact H0]). simpl.
    rewrite (generate_node_ok _ _ _ Himg5). simpl.
    eexists _, a5, (S (S (next_node s))), (generate_geom (geom_builder a5)), _.
    split; [reflexivity|]. split; [exact Ha5|].
    unfold children_of, geoms_of, pos_of, layer_node, collider_parent. simpl.
    heap_lookup. simpl.
    repeat split; try reflexivity; exact Hlen.
Qed.

(** ** The grid loop *)

Lemma grid_frame_refl cp s : grid_frame cp s s.
Proof. repeat split; auto. Qed.

Lemma grid_frame_trans cp s1 s2 s3 :
  grid_frame cp s1 s2 -> grid_frame cp s2 s3 -> grid_frame cp s1 s3.
Proof.
  intros (Hn1 & Hs1 & Hc1 & Hr1) (Hn2 & Hs2 & Hc2 & Hr2). repeat split.
  - lia.
  - intros p Hp Hne. rewrite Hs2 by (lia || assumption). apply Hs1; assumption.
  - congruence.
  - congruence.
Qed.

Lemma collider_placed_frame cp c pos s : grid_frame cp s (collider_placed s cp c pos).
Proof.
  unfold grid_frame, collider_placed. simpl.
  split; [lia|]. split; [|split; reflexivity].
  intros p Hp Hne. heap_lookup. reflexivity.
Qed.

(** One cell: the arranger is updated by [add_tile] alone, and the state
    changes within the frame. *)
Lemma tile_layer_cell_frame m cp j a i gid s :
  snd (tile_layer_cell m cp j a (i, gid) s) = TileArranger_add_tile a gid i j
  /\ grid_frame cp s (fst (tile_layer_cell m cp j a (i, gid) s)).
Proof.
  destruct (TileArranger_add_tile a gid i j) as [a'|e] eqn:Ha.
  - destruct (colliders s !! gid) as [c|] eqn:Hc.
    + rewrite (tile_layer_cell_some _ _ _ _ _ _ _ _ _ Ha Hc). simpl.
      split; [reflexivity | apply collider_placed_frame].
    + rewrite (tile_layer_cell_none _ _ _ _ _ _ _ _ Ha Hc). simpl.
      split; [reflexivity | apply grid_frame_refl].
  - rewrite (tile_layer_cell_raise _ _ _ _ _ _ _ _ Ha). simpl.
    split; [reflexivity | apply grid_frame_refl].
Qed.

Lemma row_frame m cp j cells a s :
  snd (for_fold cells a (tile_layer_cell m cp j) s)
  = result_fold cells a (fun a '(i, gid) => TileArranger_add_tile a gid i j)
  /\ grid_frame cp s (fst (for_fold cells a (tile_layer_cell m cp j) s)).
Proof.
  revert a s. induction cells as [|[i gid] cells IH]; intros a s; simpl.
  - split; [reflexivity | apply grid_frame_refl].
  - unfold mbind, M_bind, result_bind.
    destruct (tile_layer_cell_frame m cp j a i gid s) as [Hr Hf].
    destruct (tile_layer_cell m cp j a (i, gid) s) as [s1 r]. simpl in Hr, Hf.
    rewrite <- Hr. destruct r as [a'|e]; simpl.
    + destruct (IH a' s1) as [Hr' Hf']. split; [exact Hr'|].
      eapply grid_frame_trans; eassumption.
    + split; [reflexivity | exact Hf].
Qed.

Lemma grid_loop_frame m cp rows a s :
  let loop :=
    for_fold rows a (fun a '(j, row) =>
      for_fold (enumerate row) a (tile_layer_cell m cp j)) in
  snd (loop s)
  = result_fold rows a (fun a '(j, row) =>
      result_fold (enumerate row) a (fun a '(i, gid) => TileArranger_add_tile a gid i j))
  /\ grid_frame cp s (fst (loop s)).
Proof.
  revert a s. induction rows as [|[j row] rows IH]; intros a s; simpl.
  - split; [reflexivity | apply grid_frame_refl].
  - unfold mbind, M_bind, result_bind.
    destruct (row_frame m cp j (enumerate row) a s) as [Hr Hf].
    destruct (for_fold (enumerate row) a (tile_layer_cell m cp j) s) as [s1 r].
    simpl in Hr, Hf. rewrite <- Hr. destruct r as [a'|e]; simpl.
    + destruct (IH a' s1) as [Hr' Hf']. split; [exact Hr'|].
      eapply grid_frame_trans; eassumption.
    + split; [reflexivity | exact Hf].
Qed.

Lemma result_fold_invariant {A B} (P : B -> Prop) (xs : list A) (body : B -> A -> Result B) :
  (forall b x b', P b -> body b x = Ok b' -> P b') ->
  forall b b', P b -> result_fold xs b body = Ok b' -> P b'.
Proof.
  intros Hbody. induction xs as [|x xs IH]; simpl; intros b b' Hb.
  - intros [= <-]. exact Hb.
  - unfold mbind, result_bind. destruct (body b x) as [b1|e] eqn:E; [|discriminate].
    apply IH. eapply Hbody; eassumption.
Qed.

Lemma add_tile_keeps_tileset a gid x y a' :
  TileArranger_add_tile a gid x y = Ok a' -> tileset a' = tileset a.
Proof.
  unfold TileArranger_add_tile. destruct (negb (truthy gid)); [intros [= <-]; reflexivity|].
  simpl. unfold mbind, result_bind.
  destruct (get_tile_uv_transform _ _); [intros [= <-]; reflexivity | discriminate].
Qed.

Lemma arrange_grid_tileset a data a' :
  arrange_grid a data = Ok a' -> tileset a' = tileset a.
Proof.
  unfold arrange_grid. intros H.
  refine (result_fold_invariant (fun b => tileset b = tileset a) _ _ _ a a' eq_refl H).
  intros b [j row] b' Hb Hrow. rewrite <- Hb.
  refine (result_fold_invariant (fun c => tileset c = tileset b) _ _ _ b b' eq_refl Hrow).
  intros c [i gid] c' Hc Hcell. rewrite <- Hc. eapply add_tile_keeps_tileset, Hcell.
Qed.

(** C3 (as amended). [load_tile_layer] takes its tileset from the map's
    tileset dict under key 1.  Without that key it raises [KeyError].  With
    it, the outcome depends on the map only through that tileset and the
    tile size; and when the layer is composed, the batch below the layer
    node is the geometry of the whole grid arranged with that one tileset,
    bound to the texture of that tileset's image. *)
Theorem tile_layer_uses_tileset_under_key_1
    (m : TiledMap) (h : LayerHeader) (data : option (list (list Z))) (s : State) :
  (dict_get (tilesets m) 1 = None ->
   exists s', load_tile_layer m h data s = (s', Raise (KeyError 1)))
  /\ (forall ts, dict_get (tilesets m) 1 = Some ts ->
      (forall m', tile_size m' = tile_size m -> dict_get (tilesets m') 1 = Some ts ->
         load_tile_layer m' h data s = load_tile_layer m h data s)
      /\ (forall s' p, load_tile_layer m h data s = (s', Ok p) ->
          exists a cluster img,
            arrange_grid (new_TileArranger ts) (default [] data) = Ok a
            /\ tileset a = ts
            /\ ts_image ts = Some img
            /\ children_of s' p = [cluster]
            /\ geoms_of s' cluster
               = [(generate_geom (geom_builder a),
                   make_render_state (tileset_texture s img))])).
Proof.
  split.
  - intros Hnone. unfold load_tile_layer, dict_getitem. rewrite Hnone.
    eexists. reflexivity.
  - intros ts Hts. split.
    + intros m' Hsize Hts'. unfold load_tile_layer, dict_getitem, tile_layer_cell.
      rewrite Hts, Hts', Hsize. reflexivity.
    + intros s' p. unfold load_tile_layer, dict_getitem. rewrite Hts.
      unfold mbind at 1 2 3. unfold M_bind at 1 2 3.
      unfold new_NodePath, construct, lift. simpl.
      set (s2 := set_scene _ _ _).
      unfold mbind at 1. unfold M_bind at 1.
      destruct (grid_loop_frame m (S (next_node s)) (enumerate (default [] data))
                  (new_TileArranger ts) s2) as [Hres Hframe].
      simpl in Hres, Hframe.
      destruct (for_fold _ _ _ s2) as [s3 r]. simpl in Hres, Hframe.
      destruct r as [a|e]; [|discriminate].
      assert (Hta : tileset a = ts).
      { symmetry in Hres. apply arrange_grid_tileset in Hres. exact Hres. }
      destruct (ts_image ts) as [img|] eqn:Himg.
      * assert (Himg' : ts_image (tileset a) = Some img) by (rewrite Hta; exact Himg).
        unfold mbind, M_bind. rewrite (generate_node_ok _ _ _ Himg'). simpl.
        intros [= <- <-]. exists a, (next_node s3), img.
        destruct Hframe as (Hn & Hs & Hc & Hr). subst s2. simpl in *.
        split; [symmetry; exact Hres|]. split; [exact Hta|]. split; [reflexivity|].
        unfold children_of, geoms_of, tileset_texture. simpl.
        rewrite Hr. heap_lookup. rewrite Hs by lia. heap_lookup. simpl.
        split; reflexivity.
      * assert (Himg' : ts_image (tileset a) = None) by (rewrite Hta; exact Himg).
        unfold mbind, M_bind. rewrite (generate_node_no_image _ _ Himg'). discriminate.
Qed.

(** ** Placing a tile object *)

(** C5 (as amended). A tile object with a registered collider: the object
    node has the tile node as its only child; the tile node is at
    (0, 0, object height) with scale (object width / tile width, 1,
    object height / tile height); the collider node is the only child of
    the tile node and is itself left as it was, so it sits at the tile's
    origin and the scene graph applies the tile node's scale to it. *)
Theorem place_tile_object_collider
    (m : TiledMap) (o : TiledObject) (gid : Z) (ts : Tileset) (a : TileArranger)
    (img : Path) (c : NodePath) (s : State) :
  obj_shape o = TileShape gid ->
  find_source m gid = Ok ts ->
  TileArranger_add_tile (new_TileArranger ts) gid 0 0 = Ok a ->
  ts_image ts = Some img ->
  ~ (fst (tile_size m) == 0)%Q ->
  ~ (snd (tile_size m) == 0)%Q ->
  colliders s !! gid = Some c ->
  (c < next_node s)%nat ->
  let object_path := next_node s in
  let tile_path := S (next_node s) in
  let width_scale := (fst (obj_size o) / fst (tile_size m))%Q in
  let height_scale := (snd (obj_size o) / snd (tile_size m))%Q in
  exists s',
    place_object m o s = (s', Ok object_path)
    /\ children_of s' object_path = [tile_path]
    /\ children_of s' tile_path = [c]
    /\ pos_of s' tile_path = V3 0 0 (snd (obj_size o))
    /\ scale_of s' tile_path = V3 width_scale 1 height_scale
    /\ scale_of s' object_path = V3 1 1 1
    /\ scene s' !! c = scene s !! c
    /\ Qeq3 (net_scale s' [object_path; tile_path; c])
            (V3 (width_scale * vx (scale_of s c)) (vy (scale_of s c))
                (height_scale * vz (scale_of s c))).
Proof.
  intros Hshape Hsrc Ha Himg Htw Hth Hc Hlt object_path tile_path width_scale height_scale.
  assert (Hta : ts_image (tileset a) = Some img).
  { rewrite (add_tile_keeps_tileset _ _ _ _ _ Ha). exact Himg. }
  unfold place_object. rewrite Hshape.
  unfold mbind, M_bind, lift, new_NodePath, construct. simpl.
  rewrite Hsrc, Ha. rewrite (generate_node_ok _ _ _ Hta).
  destruct (obj_size o) as [ow oh] eqn:Hsize. simpl.
  rewrite (true_div_ok _ _ Htw), (true_div_ok _ _ Hth).
  unfold get_collider. simpl. rewrite Hc. simpl.
  eexists. split; [reflexivity|].
  unfold children_of, pos_of, net_scale, scale_of, Qeq3, object_path, tile_path,
    width_scale, height_scale.
  simpl. heap_lookup. simpl.
  repeat split; try reflexivity; destruct (scene s !! c); simpl; ring.
Qed.

(** ** What the loader writes to the document *)


Lemma changed_images_refl m l : changed_images m l l.
Proof.
  induction l as [h data|h objs|h image|h|h|h ls IH] using Layer_nested_ind;
    try constructor.
  induction IH; constructor; assumption.
Qed.

Lemma changed_images_refl_list m ls : Forall2 (changed_images m) ls ls.
Proof. induction ls; constructor; [apply changed_images_refl | assumption]. Qed.

Lemma load_layer_changed_images m l :
  forall s, changed_images m l (fst (load_layer m l s)).
Proof.
  induction l as [h data|h objs|h image|h|h|h ls IH] using Layer_nested_ind;
    intros s; simpl; try constructor.
  match goal with
  | |- context [ (fix each (ls : list Layer) (s : State) {struct ls} := _) ls ?s1 ] =>
      set (each := fix each (ls : list Layer) (s : State) {struct ls} := _);
      generalize s1
  end.
  intros s1.
  assert (Hall : forall s, Forall2 (changed_images m) ls (fst (each ls s))).
  { clear s1. induction IH as [|l ls Hl _ IHls]; intros s1; simpl; [constructor|].
    specialize (Hl s1). destruct (load_layer m l s1) as [l' [s2 [q|e]]]; simpl in *.
    - match goal with |- context [each ls ?s3] => specialize (IHls s3);
        destruct (each ls s3) as [ls' out] end.
      simpl in *. constructor; assumption.
    - constructor; [assumption | apply changed_images_refl_list]. }
  specialize (Hall s1). destruct (each ls s1) as [ls' [s2 r]]. simpl in *.
  constructor. exact Hall.
Qed.

Lemma load_layer_without_images m l :
  has_image_layer l = false -> forall s, fst (load_layer m l s) = l.
Proof.
  induction l as [h data|h objs|h image|h|h|h ls IH] using Layer_nested_ind;
    intros Himg s; simpl in *; try reflexivity; try discriminate.
  match goal with
  | |- context [ (fix each (ls : list Layer) (s : State) {struct ls} := _) ls ?s1 ] =>
      set (each := fix each (ls : list Layer) (s : State) {struct ls} := _);
      generalize s1
  end.
  intros s1.
  assert (Hall : forall s, fst (each ls s) = ls).
  { clear s1. induction IH as [|l ls Hl _ IHls]; intros s1; simpl; [reflexivity|].
    simpl in Himg. apply orb_false_iff in Himg. destruct Himg as [Hl0 Hls0].
    specialize (Hl Hl0 s1). destruct (load_layer m l s1) as [l' [s2 [q|e]]]; simpl in *.
    - match goal with |- context [each ls ?s3] => specialize (IHls Hls0 s3);
        destruct (each ls s3) as [ls' out] end.
      simpl in *. congruence.
    - congruence. }
  specialize (Hall s1). destruct (each ls s1) as [ls' [s2 r]]. simpl in *.
  congruence.
Qed.

Lemma load_layers_changed_images m root ls :
  forall s, Forall2 (changed_images m) ls (fst (load_layers m root ls s)).
Proof.
  induction ls as [|l ls IH]; intros s; simpl; [constructor|].
  pose proof (load_layer_changed_images m l s) as Hl.
  destruct (load_layer m l s) as [l' [s1 [q|e]]]; simpl in *.
  - match goal with |- context [load_layers m root ls ?s3] => specialize (IH s3);
      destruct (load_layers m root ls s3) as [ls' out] end.
    simpl in *. constructor; assumption.
  - constructor; [assumption | apply changed_images_refl_list].
Qed.

(** C6 (as amended). The only write the loader makes to the document is
    the image path of the image layers it composes: [load_layer] leaves a
    layer as it was except for image paths of image layers in it, which it
    may replace by the path joined to the directory of the map file; a
    layer that neither is nor contains an image layer is left as it was;
    [MapLoader.load_map] leaves every field of the map other than its
    layers as it was, and its layers up to such image paths; and an image
    layer is left with the joined path. *)
Theorem load_layer_changes_only_image_paths (m : TiledMap) (s : State) :
  (forall l, changed_images m l (fst (load_layer m l s)))
  /\ (forall l, has_image_layer l = false -> fst (load_layer m l s) = l)
  /\ (exists ls, fst (MapLoader_load_map m s) = with_layers m ls
                 /\ Forall2 (changed_images m) (layers m) ls)
  /\ (forall h image,
        fst (load_layer m (ImageLayer h image) s)
        = ImageLayer h (path_join (parent (map_file m)) image)).
Proof.
  split; [intros l; apply load_layer_changed_images|].
  split; [intros l Hl; apply load_layer_without_images, Hl|].
  split; [|reflexivity].
  unfold MapLoader_load_map. simpl.
  match goal with |- context [load_layers m ?root (layers m) ?s3] =>
    pose proof (load_layers_changed_images m root (layers m) s3) as H;
    destruct (load_layers m root (layers m) s3) as [ls [s4 r]] end.
  exists ls. split; [reflexivity | exact H].
Qed.

(** ** Further properties of the code: flag bits *)

Lemma land_pow2_truthy gid k :
  0 <= k -> Z.testbit gid k = true -> truthy (Z.land gid (2 ^ k)) = true.
Proof.
  intros Hk Hb. unfold truthy. apply negb_true_iff, Z.eqb_neq. intros H0.
  assert (Hbit : Z.testbit (Z.land gid (2 ^ k)) k = true).
  { rewrite Z.land_spec, Hb, Z.pow2_bits_eqb, Z.eqb_refl by lia. reflexivity. }
  rewrite H0, Z.bits_0 in Hbit. discriminate.
Qed.

(** ** Instances *)

(** An isometric document is rejected from the empty state. *)
Lemma load_map_rejects_unsupported_witness :
  exists msg,
    load_map (fun _ => Ok isometric_map) (map_file isometric_map) empty_state
    = (empty_state, Raise (UnsupportedError msg)).
Proof.
  apply (load_map_rejects_unsupported _ _ isometric_map empty_state).
  - reflexivity.
  - right. discriminate.
Defined.

(** The crate tileset registers one collider, under gid 1. *)
Lemma load_colliders_single_rectangle_witness :
  exists s',
    load_colliders crate_tileset empty_state = (s', Ok tt)
    /\ colliders s' = {[ 1 := 0%nat ]}
    /\ solids_of s' 0%nat = [CollisionBox (V3 0 (-16) (-16)) (V3 32 16 0)]
    /\ (forall gid, gid <> 1 -> get_collider gid s' = (s', Ok None)).
Proof.
  apply (load_colliders_single_rectangle crate_tileset [(0, crate_tile)] [] []
           crate_tile (MkLayerHeader "shapes" 1) crate_rectangle empty_state);
    try reflexivity; constructor.
Defined.

(** The 2x1 layer on the two-atlas map, with a collider registered for
    gid 5: six vertices and one collider attachment. *)
Lemma tile_layer_5_0_witness :
  exists s' cluster geom rs,
    load_tile_layer two_atlas_map (MkLayerHeader "ground" 1) (Some [[5; 0]])
      state_with_collider_5 = (s', Ok 1%nat)
    /\ geoms_of s' cluster = [(geom, rs)]
    /\ length (geom_vertex_data geom) = 6%nat
    /\ geom_triangles geom = 6%nat
    /\ length (children_of s' 2%nat) = 1%nat.
Proof.
  destruct (tile_layer_5_0 two_atlas_map (MkLayerHeader "ground" 1)
              (atlas_named "ground.png" 1 8) (MkPath false ["ground.png"%string])
              state_with_collider_5)
    as (s' & a5 & cluster & geom & rs & Hrun & _ & _ & Hgeoms & _ & Hlen & Htri & _ & Hcol).
  - reflexivity.
  - split; [exists 128; split; [reflexivity | discriminate]|].
    split; [exists 64; split; [reflexivity | discriminate] | discriminate].
  - reflexivity.
  - reflexivity.
  - exists s', cluster, geom, rs. split; [exact Hrun|]. split; [exact Hgeoms|].
    split; [exact Hlen|]. split; [exact Htri|].
    change (colliders state_with_collider_5 !! 5) with (Some 0%nat) in Hcol.
    destruct Hcol as (loc & Hloc & _).
    change (S (next_node state_with_collider_5)) with 2%nat in Hloc.
    rewrite Hloc. reflexivity.
Defined.

(** The crate placed at twice its size. *)
Lemma place_tile_object_collider_witness :
  exists s',
    place_object crate_map big_crate crate_state = (s', Ok 1%nat)
    /\ children_of s' 2%nat = [0%nat]
    /\ scale_of s' 2%nat = V3 (64 / 32) 1 (64 / 32).
Proof.
  destruct (place_tile_object_collider crate_map big_crate 1 crate_tileset crate_arranger
              (MkPath false ["crate.png"%string]) 0%nat crate_state)
    as (s' & Hrun & _ & Hch & _ & Hscale & _).
  - reflexivity.
  - reflexivity.
  - reflexivity.
  - reflexivity.
  - discriminate.
  - discriminate.
  - reflexivity.
  - vm_compute. lia.
  - exists s'. split; [exact Hrun|]. split; [exact Hch | exact Hscale].
Defined.

(** The crate map registers nothing under gid 0. *)
Lemma load_tile_colliders_keeps_empty_cell_witness :
  colliders (fst (load_tile_colliders crate_map empty_state)) !! 0 = None.
Proof.
  apply load_tile_colliders_keeps_empty_cell.
  - repeat constructor.
  - reflexivity.
Defined.

(** ** Where the code departs from the specification's wording *)

(** C3, as stated, fails: on a map that declares "ground.png" (gids 1..8)
    and then "walls.png" (gids 9..16), a layer whose only gid is 9 gets a
    batch bound to the image of the tileset declared first, not second. *)
Lemma tile_layer_batch_not_from_second_declared :
  exists s' p,
    load_tile_layer two_atlas_map (MkLayerHeader "walls" 1) (Some [[9]]) empty_state
    = (s', Ok p)
    /\ second_declared two_atlas_map = Some (atlas_named "walls.png" 9 8)
    /\ batch_image s' p = Some (MkPath false ["ground.png"%string])
    /\ batch_image s' p <> ts_image (atlas_named "walls.png" 9 8).
Proof.
  eexists _, _. split; [vm_compute; reflexivity|].
  split; [reflexivity|]. split; [vm_compute; reflexivity|].
  vm_compute. discriminate.
Qed.

(** C9, as stated, fails: with a registry that holds an entry under gid 0
    and none under gid 5, the layer [5, 0] gets one collider location all
    the same: it is the empty cell's, at the position of cell (1, 0), and
    it holds the node registered under gid 0. *)
Lemma empty_cell_gets_collider :
  exists s' location,
    load_tile_layer two_atlas_map (MkLayerHeader "ground" 1) (Some [[5; 0]])
      state_with_collider_0 = (s', Ok 1%nat)
    /\ get_collider 5 state_with_collider_0 = (state_with_collider_0, Ok None)
    /\ get_collider 0 state_with_collider_0 = (state_with_collider_0, Ok (Some 0%nat))
    /\ children_of s' 2%nat = [location]
    /\ children_of s' location = [0%nat]
    /\ Qeq3 (pos_of s' location) (V3 32 0 0).
Proof.
  eexists _, 3%nat. split; [vm_compute; reflexivity|].
  split; [reflexivity|]. split; [reflexivity|].
  split; [vm_compute; reflexivity|]. split; [vm_compute; reflexivity|].
  vm_compute. repeat split; reflexivity.
Qed.

(** C5, as stated, fails: the crate's collider ends below a node scaled by
    (2, 1, 2), so the scene graph applies that scale to it; it is not left
    at the unit scale of tile-native units. *)
Lemma placed_collider_is_scaled :
  exists s' object_path tile_path c,
    place_object crate_map big_crate crate_state = (s', Ok object_path)
    /\ children_of s' object_path = [tile_path]
    /\ children_of s' tile_path = [c]
    /\ solids_of s' c = [CollisionBox (V3 0 (-16) (-16)) (V3 32 16 0)]
    /\ Qeq3 (net_scale s' [object_path; tile_path; c]) (V3 2 1 2)
    /\ ~ Qeq3 (net_scale s' [object_path; tile_path; c]) (V3 1 1 1).
Proof.
  eexists _, 1%nat, 2%nat, 0%nat. split; [vm_compute; reflexivity|].
  split; [reflexivity|]. split; [reflexivity|]. split; [reflexivity|].
  split.
  - vm_compute. repeat split; reflexivity.
  - vm_compute. intros [H _]. discriminate.
Qed.

(** C6, as stated, fails: composing an image layer whose image is the
    relative path "bg.png", for a map file in "maps", leaves the layer
    with the image path "maps/bg.png". *)
Lemma image_layer_is_rewritten :
  fst (load_layer two_atlas_map background_layer empty_state)
  = ImageLayer (MkLayerHeader "background" (1 # 2)) (MkPath false ["maps"; "bg.png"]%string)
  /\ fst (load_layer two_atlas_map background_layer empty_state) <> background_layer.
Proof. split; [reflexivity | discriminate]. Qed.

(** ** Transform codec: every orientation *)

Lemma truthy_land_pow2 gid k :
  0 <= k -> truthy (Z.land gid (2 ^ k)) = Z.testbit gid k.
Proof.
  intros Hk. destruct (Z.testbit gid k) eqn:Hb.
  - apply land_pow2_truthy; assumption.
  - rewrite land_pow2_zero by assumption. reflexivity.
Qed.

Lemma extract_tile_transform_by_bits gid :
  extract_tile_transform gid
  = (clear_flags gid,
     snd (extract_tile_transform
            (flag_bits (Z.testbit gid 31) (Z.testbit gid 30) (Z.testbit gid 29) false))).
Proof.
  unfold extract_tile_transform.
  change DIAGONAL_FLIP_FLAG with (2 ^ 29).
  change HORIZONTAL_FLIP_FLAG with (2 ^ 31).
  change VERTICAL_FLIP_FLAG with (2 ^ 30).
  rewrite !truthy_land_pow2 by lia.
  destruct (Z.testbit gid 29), (Z.testbit gid 31), (Z.testbit gid 30); reflexivity.
Qed.

(** X2. The transform depends on the three flip bits alone: two gids that
    agree on bits 29, 30 and 31 get the same transform, whatever their
    base ids and hexagonal-rotation bits. *)
Theorem transform_depends_on_flip_bits_only (gid gid' : Z) :
  flip_bits gid = flip_bits gid' ->
  snd (extract_tile_transform gid) = snd (extract_tile_transform gid').
Proof.
  unfold flip_bits. intros [= Hd Hh Hv].
  rewrite (extract_tile_transform_by_bits gid), (extract_tile_transform_by_bits gid').
  simpl. rewrite Hd, Hh, Hv. reflexivity.
Qed.

(** X3. Decoding is idempotent: the gid it returns decodes to itself with
    the identity transform. *)
Theorem extract_tile_transform_of_clean_gid (gid : Z) :
  extract_tile_transform (fst (extract_tile_transform gid))
  = (fst (extract_tile_transform gid), ident_mat).
Proof.
  change (fst (extract_tile_transform gid)) with (clear_flags gid).
  rewrite extract_tile_transform_by_bits, clear_flags_idem.
  rewrite !clear_flags_testbit.
  change (is_flag_bit 31) with true. change (is_flag_bit 30) with true.
  change (is_flag_bit 29) with true. rewrite !andb_false_r. reflexivity.
Qed.

(** The exact half turns send (x, 0, z) to the flipped point. *)
Lemma flipped_point_formula (gid : Z) (x z : Q) :
  Qeq3 (xform_point (snd (extract_tile_transform gid)) (V3 x 0 z))
       (let '(d, h, v) := flip_bits gid in flipped_point d h v x z).
Proof.
  rewrite extract_tile_transform_by_bits. unfold flip_bits.
  destruct (Z.testbit gid 29), (Z.testbit gid 31), (Z.testbit gid 30);
    match goal with
    | |- context [snd (extract_tile_transform ?g)] =>
        let m := eval vm_compute in (snd (extract_tile_transform g)) in
        change (snd (extract_tile_transform g)) with m
    end;
    unfold Qeq3, flipped_point, xform_point, vec4_comb; cbn -[Qplus Qmult Qminus Qopp];
    repeat split; ring.
Qed.

(** X5. Without the diagonal flag a point of the unit square stays in the
    unit square; with it the point leaves the square: its z coordinate
    ends at or below -1, or at or above 2. *)
Theorem unit_square_under_flips (gid : Z) (x z : Q) :
  (0 <= x <= 1)%Q -> (0 <= z <= 1)%Q ->
  let p := xform_point (snd (extract_tile_transform gid)) (V3 x 0 z) in
  if Z.testbit gid 29
  then (vz p <= -1 \/ 2 <= vz p)%Q
  else (0 <= vx p <= 1 /\ 0 <= vz p <= 1)%Q.
Proof.
  intros Hx Hz p.
  pose proof (flipped_point_formula gid x z) as H. fold p in H. clearbody p.
  unfold flip_bits, Qeq3 in H.
  destruct (Z.testbit gid 29), (Z.testbit gid 31), (Z.testbit gid 30);
    unfold flipped_point in H; cbn [vx vy vz] in H; destruct H as (Hpx & _ & Hpz); lra.
Qed.

(** ** Atlas mapper: outcome and coordinates *)

Lemma true_div_zero (a b : Q) : (b == 0)%Q -> true_div a b = Raise ZeroDivisionError.
Proof.
  intros Hb. unfold true_div. apply Qeq_bool_iff in Hb. rewrite Hb. reflexivity.
Qed.

Lemma get_tile_uv_transform_cases (ts : Tileset) (tile_id : Z) :
  match get_tile_uv_transform ts tile_id with
  | Ok _ => atlas_ready ts
  | Raise (ValueError _) => image_width ts = None \/ image_height ts = None
  | Raise ZeroDivisionError =>
      exists iw ih, image_width ts = Some iw /\ image_height ts = Some ih
                    /\ (iw = 0 \/ ih = 0 \/ columns ts = 0)
  | Raise _ => False
  end.
Proof.
  unfold get_tile_uv_transform, atlas_ready.
  destruct (image_height ts) as [ih|]; [|right; reflexivity].
  destruct (image_width ts) as [iw|]; [|left; reflexivity].
  destruct (Z.eq_dec iw 0) as [->|Hiw].
  { simpl. exists 0, ih. auto. }
  rewrite (true_div_ok _ _ (inject_Z_nonzero _ Hiw)).
  destruct (Z.eq_dec ih 0) as [->|Hih].
  { simpl. exists iw, 0. auto. }
  rewrite (true_div_ok _ _ (inject_Z_nonzero _ Hih)). simpl.
  destruct (Z.eqb_spec (columns ts) 0) as [Hc|Hc].
  { exists iw, ih. auto. }
  destruct (atlas_origin ts tile_id). 
  split; [exists iw; auto|]. split; [exists ih; auto | exact Hc].
Qed.

(** X6. The outcome of the atlas mapper, whatever the tile index: it
    returns a transform exactly when both image dimensions are known and
    not zero and the column count is not zero; it raises [ValueError]
    exactly when a dimension is unknown; otherwise, with the dimensions
    known and one of them or the column count zero, it raises
    [ZeroDivisionError]. *)
Theorem get_tile_uv_transform_outcome (ts : Tileset) (tile_id : Z) :
  ((exists uv, get_tile_uv_transform ts tile_id = Ok uv) <-> atlas_ready ts)
  /\ ((exists msg, get_tile_uv_transform ts tile_id = Raise (ValueError msg))
      <-> image_width ts = None \/ image_height ts = None)
  /\ (get_tile_uv_transform ts tile_id = Raise ZeroDivisionError
      <-> exists iw ih, image_width ts = Some iw /\ image_height ts = Some ih
                        /\ (iw = 0 \/ ih = 0 \/ columns ts = 0)).
Proof.
  pose proof (get_tile_uv_transform_cases ts tile_id) as H.
  split; [|split].
  - split; [intros [uv Huv]; rewrite Huv in H; exact H | apply get_tile_uv_transform_ok].
  - split.
    + intros [msg Hmsg]. rewrite Hmsg in H. exact H.
    + intros Hnone. destruct (get_tile_uv_transform ts tile_id) as [uv|[]] eqn:E;
        try (eexists; reflexivity); exfalso.
      * destruct H as ((iw & Hiw & _) & (ih & Hih & _) & _).
        destruct Hnone; congruence.
      * exact H.
      * exact H.
      * destruct H as (iw & ih & Hiw & Hih & _). destruct Hnone; congruence.
      * exact H.
  - split.
    + intros Hz. rewrite Hz in H. exact H.
    + intros (iw & ih & Hiw & Hih & Hzero).
      destruct (get_tile_uv_transform ts tile_id) as [uv|[]] eqn:E;
        try reflexivity; exfalso; try exact H.
      * destruct H as ((iw' & Hiw' & Hiw0) & (ih' & Hih' & Hih0) & Hc).
        rewrite Hiw in Hiw'. rewrite Hih in Hih'.
        injection Hiw' as <-. injection Hih' as <-. tauto.
      * destruct H; congruence.
Qed.

(** The texture coordinate of a point of the unit quad, in exact
    arithmetic. *)
Lemma texcoord_formula
    (ts : Tileset) (tile_id iw ih : Z) (uv : LMatrix4) (x y : Q) :
  image_width ts = Some iw -> image_height ts = Some ih ->
  get_tile_uv_transform ts tile_id = Ok uv ->
  let '(x_start, y_start) := atlas_origin ts tile_id in
  (fst (texcoord_of uv x y)
   == (inject_Z (tile_width ts) * x + inject_Z (margin ts) + inject_Z x_start)
      / inject_Z iw)%Q
  /\ (snd (texcoord_of uv x y)
      == (inject_Z (tile_height ts) * y
          + inject_Z (ih - margin ts - tile_height ts) - inject_Z y_start)
         / inject_Z ih)%Q.
Proof.
  intros Hiw Hih Huv.
  pose proof (get_tile_uv_transform_cases ts tile_id) as Hready.
  rewrite Huv in Hready. destruct Hready as ((iw' & Hiw' & Hiw0) & (ih' & Hih' & Hih0) & Hc).
  rewrite Hiw in Hiw'. rewrite Hih in Hih'. injection Hiw' as <-. injection Hih' as <-.
  revert Huv. unfold get_tile_uv_transform. rewrite Hiw, Hih.
  rewrite (true_div_ok _ _ (inject_Z_nonzero _ Hiw0)).
  rewrite (true_div_ok _ _ (inject_Z_nonzero _ Hih0)). simpl.
  apply Z.eqb_neq in Hc. rewrite Hc.
  destruct (atlas_origin ts tile_id) as [x_start y_start]. intros [= <-].
  pose proof (inject_Z_nonzero _ Hiw0). pose proof (inject_Z_nonzero _ Hih0).
  unfold texcoord_of, xform_point, vec4_comb, mat_mul, scale_mat, translate_mat.
  cbn -[Qplus Qmult Qminus Qopp Qdiv inject_Z].
  rewrite inject_Z_opp. split; field; assumption.
Qed.

Lemma inject_Z_le (a b : Z) : a <= b -> (inject_Z a <= inject_Z b)%Q.
Proof. intros H. rewrite <- Zle_Qle. exact H. Qed.

Lemma Qdiv_between_0_1 (n d : Q) : (0 < d)%Q -> (0 <= n)%Q -> (n <= d)%Q ->
  (0 <= n / d <= 1)%Q.
Proof.
  intros Hd Hn Hnd. split.
  - apply Qle_shift_div_l; [exact Hd | lra].
  - apply Qle_shift_div_r; [exact Hd | lra].
Qed.

Lemma tile_in_atlas_ready (ts : Tileset) (tile_id : Z) :
  tile_in_atlas ts tile_id -> atlas_ready ts.
Proof.
  intros (Htw & Hth & Hm & Hsp & Hc & Hid & iw & ih & Hiw & Hih & Hfitw & Hfith).
  assert (Hiw0 : 0 < iw) by nia.
  assert (Hj : 0 <= tile_id / columns ts) by (apply Z.div_pos; lia).
  assert (Hih0 : 0 < ih) by nia.
  split; [exists iw; split; [exact Hiw | lia]|].
  split; [exists ih; split; [exact Hih | lia] | lia].
Qed.

(** X7. The layout of a dyadic atlas (image dimensions that are powers of
    two, where the engine's single precision is exact), for a tile that
    lies inside it: the atlas mapper returns a transform, and at each
    corner (x, y) of the unit quad the texture coordinate is
    u = (margin + column * (tile_width + spacing) + x * tile_width) / image_width
    and, counted from the bottom of the image,
    v = (image_height - margin - tile_height - row * (tile_height + spacing)
         + y * tile_height) / image_height,
    with row = tile_id / columns and column = tile_id mod columns. *)
Theorem get_tile_uv_transform_point (ts : Tileset) (tile_id a b : Z) :
  tile_in_atlas ts tile_id ->
  dyadic_atlas ts a b ->
  exists uv,
    get_tile_uv_transform ts tile_id = Ok uv
    /\ Forall
         (fun '(x, y) =>
            (fst (texcoord_of uv x y)
             == (inject_Z (margin ts
                           + (tile_id mod columns ts) * (tile_width ts + spacing ts))
                 + x * inject_Z (tile_width ts))
                / inject_Z (2 ^ a))%Q
            /\ (snd (texcoord_of uv x y)
                == (inject_Z (2 ^ b - margin ts - tile_height ts
                              - (tile_id / columns ts) * (tile_height ts + spacing ts))
                    + y * inject_Z (tile_height ts))
                   / inject_Z (2 ^ b))%Q)
         quad_points.
Proof.
  intros Hatlas (Ha & Hb & Hiw & Hih).
  destruct (get_tile_uv_transform_ok ts tile_id (tile_in_atlas_ready ts tile_id Hatlas))
    as [uv Huv].
  exists uv. split; [exact Huv|].
  assert (Hiw0 : ~ (inject_Z (2 ^ a) == 0)%Q)
    by (apply inject_Z_nonzero; pose proof (Z.pow_pos_nonneg 2 a); lia).
  assert (Hih0 : ~ (inject_Z (2 ^ b) == 0)%Q)
    by (apply inject_Z_nonzero; pose proof (Z.pow_pos_nonneg 2 b); lia).
  apply Forall_forall. intros [x y] _.
  pose proof (texcoord_formula ts tile_id (2 ^ a) (2 ^ b) uv x y Hiw Hih Huv) as Hpt.
  unfold atlas_origin, atlas_cell in Hpt. destruct Hpt as [Hu Hv]. rewrite Hu, Hv.
  unfold Z.sub. rewrite !inject_Z_plus, !inject_Z_opp. split; field; assumption.
Qed.

(** X8. For a tile that lies inside a dyadic atlas the atlas mapper
    returns a transform that sends every point of the unit quad to a
    texture coordinate inside the unit square.  (With image dimensions
    that are not powers of two the engine's rounding can put an edge of
    the last column or row one unit in the last place outside.) *)
Theorem texcoords_inside_unit_square (ts : Tileset) (tile_id a b : Z) :
  tile_in_atlas ts tile_id ->
  dyadic_atlas ts a b ->
  exists uv,
    get_tile_uv_transform ts tile_id = Ok uv
    /\ forall x y : Q, (0 <= x <= 1)%Q -> (0 <= y <= 1)%Q ->
         (0 <= fst (texcoord_of uv x y) <= 1 /\ 0 <= snd (texcoord_of uv x y) <= 1)%Q.
Proof.
  intros Hatlas _.
  destruct (get_tile_uv_transform_ok ts tile_id (tile_in_atlas_ready ts tile_id Hatlas))
    as [uv Huv].
  destruct Hatlas
    as (Htw & Hth & Hm & Hsp & Hc & Hid & iw & ih & Hiw & Hih & Hfitw & Hfith).
  assert (Hiw0 : 0 < iw) by nia.
  assert (Hj : 0 <= tile_id / columns ts) by (apply Z.div_pos; lia).
  assert (Hih0 : 0 < ih) by nia.
  exists uv. split; [exact Huv|]. intros x y Hx Hy.
  pose proof (texcoord_formula ts tile_id iw ih uv x y Hiw Hih Huv) as Hpt.
  unfold atlas_origin, atlas_cell in Hpt.
  set (i := tile_id mod columns ts) in *. set (j := tile_id / columns ts) in *.
  assert (Hi : 0 <= i < columns ts) by (apply Z.mod_pos_bound; lia).
  destruct Hpt as [Hu Hv]. rewrite Hu, Hv.
  set (xs := i * (tile_width ts + spacing ts)) in *.
  set (ys := j * (tile_height ts + spacing ts)) in *.
  assert (Hxs : 0 <= xs) by (subst xs; nia).
  assert (Hys : 0 <= ys) by (subst ys; nia).
  assert (Hxfit : tile_width ts + margin ts + xs <= iw) by (subst xs; nia).
  set (w := ih - margin ts - tile_height ts) in *.
  assert (Hyfit : ys <= w) by (subst ys w; nia).
  assert (Hw : w + tile_height ts + margin ts <= ih) by (subst w; lia).
  apply inject_Z_le in Hxs, Hys, Hxfit, Hyfit, Hm, Hw.
  assert (HtwQ : (0 < inject_Z (tile_width ts))%Q) by (rewrite <- (Zlt_Qlt 0); exact Htw).
  assert (HthQ : (0 < inject_Z (tile_height ts))%Q) by (rewrite <- (Zlt_Qlt 0); exact Hth).
  assert (HiwQ : (0 < inject_Z iw)%Q) by (rewrite <- (Zlt_Qlt 0); exact Hiw0).
  assert (HihQ : (0 < inject_Z ih)%Q) by (rewrite <- (Zlt_Qlt 0); exact Hih0).
  rewrite !inject_Z_plus in Hxfit, Hw.
  change (inject_Z 0) with 0%Q in *.
  split; apply Qdiv_between_0_1; try assumption; nra.
Qed.

(** ** Frames: the loader writes only to nodes it has constructed *)

Lemma frame_from_refl n s : frame_from n s s.
Proof. repeat split; auto. Qed.

Lemma frame_from_trans n s1 s2 s3 :
  frame_from n s1 s2 -> frame_from n s2 s3 -> frame_from n s1 s3.
Proof.
  intros (Hn1 & Hs1 & Hc1 & Hr1) (Hn2 & Hs2 & Hc2 & Hr2). repeat split.
  - lia.
  - intros p Hp. rewrite Hs2 by assumption. apply Hs1; assumption.
  - congruence.
  - congruence.
Qed.

Lemma frame_from_le n n' s s' : (n' <= n)%nat -> frame_from n s s' -> frame_from n' s s'.
Proof.
  intros Hle (Hn & Hs & Hc & Hr). repeat split; try assumption.
  intros p Hp. apply Hs. lia.
Qed.

Lemma touches_ret {A} n (a : A) (Q : A -> Prop) : Q a -> touches_from n (mret a) Q.
Proof.
  intros Ha s Hs. split; [apply frame_from_refl|]. intros a' [= <-]. exact Ha.
Qed.

Lemma touches_lift {A} n (r : Result A) : touches_from n (lift r) (fun a => r = Ok a).
Proof.
  intros s Hs. split; [apply frame_from_refl|]. intros a Ha. exact Ha.
Qed.

Lemma touches_bind {A B} n (c : M A) (k : A -> M B) (Q : A -> Prop) (R : B -> Prop) :
  touches_from n c Q -> (forall a, Q a -> touches_from n (k a) R) ->
  touches_from n (c ≫= k) R.
Proof.
  intros Hc Hk s Hs. unfold mbind, M_bind.
  destruct (Hc s Hs) as [Hf Hq]. destruct (c s) as [s1 [a|e]]; simpl in *.
  - assert (Hs1 : (n <= next_node s1)%nat) by (destruct Hf; lia).
    destruct (Hk a (Hq a eq_refl) s1 Hs1) as [Hf' Hr].
    split; [eapply frame_from_trans; eassumption | exact Hr].
  - split; [exact Hf | discriminate].
Qed.

Lemma touches_weaken {A} n (c : M A) (Q R : A -> Prop) :
  touches_from n c Q -> (forall a, Q a -> R a) -> touches_from n c R.
Proof.
  intros Hc HQR s Hs. destruct (Hc s Hs) as [Hf Hq].
  split; [exact Hf | intros a Ha; apply HQR, Hq, Ha].
Qed.

Lemma touches_construct n name k : touches_from n (construct name k) (from n).
Proof.
  intros s Hs. unfold construct, from. simpl. split.
  - repeat split; simpl; [lia|]. intros p Hp. heap_lookup. reflexivity.
  - intros a [= <-]. exact Hs.
Qed.

Lemma touches_modify n p f : from n p -> touches_from n (modify p f) (fun _ => True).
Proof.
  unfold from. intros Hp s Hs. unfold modify. simpl. split; [|auto].
  repeat split; simpl; [lia|]. intros q Hq. heap_lookup. reflexivity.
Qed.

Lemma touches_get_collider n gid :
  touches_from n (get_collider gid) (fun _ => True).
Proof. intros s Hs. split; [apply frame_from_refl | auto]. Qed.

Lemma touches_texture_read n path : touches_from n (texture_read path) (fun _ => True).
Proof. intros s Hs. split; [apply frame_from_refl | auto]. Qed.

Lemma touches_for_each_in {A} n (xs : list A) (body : A -> M unit) :
  Forall (fun x => touches_from n (body x) (fun _ => True)) xs ->
  touches_from n (for_each xs body) (fun _ => True).
Proof.
  induction 1 as [|x xs Hx _ IH]; simpl.
  - apply touches_ret. exact I.
  - eapply touches_bind; [apply Hx | intros _ _; exact IH].
Qed.

Lemma touches_for_each {A} n (xs : list A) (body : A -> M unit) :
  (forall x, touches_from n (body x) (fun _ => True)) ->
  touches_from n (for_each xs body) (fun _ => True).
Proof.
  intros Hbody. apply touches_for_each_in. induction xs; constructor; auto.
Qed.

Lemma touches_for_fold {A B} n (xs : list A) (acc : B) (body : B -> A -> M B) :
  (forall b x, touches_from n (body b x) (fun _ => True)) ->
  touches_from n (for_fold xs acc body) (fun _ => True).
Proof.
  intros Hbody. revert acc. induction xs as [|x xs IH]; intros acc; simpl.
  - apply touches_ret. exact I.
  - eapply touches_bind; [apply Hbody | intros b _; apply IH].
Qed.

Lemma touches_attach_new_node n parent_path node :
  from n parent_path -> touches_from n (attach_new_node parent_path node) (fun p => p = node).
Proof.
  intros Hp. unfold attach_new_node.
  eapply touches_bind; [apply touches_modify, Hp|]. intros _ _.
  apply touches_ret. reflexivity.
Qed.

Lemma touches_reparent_to n child parent_path :
  from n parent_path -> touches_from n (reparent_to child parent_path) (fun _ => True).
Proof. intros Hp. apply touches_modify, Hp. Qed.

Lemma touches_generate_node n a :
  touches_from n (TileArranger_generate_node a) (from n).
Proof.
  unfold TileArranger_generate_node, load_tileset_image, add_geom.
  eapply touches_bind; [apply touches_construct|]. intros node Hnode.
  eapply touches_bind with (Q := fun _ => True).
  - destruct (ts_image (tileset a)).
    + eapply touches_bind; [apply touches_texture_read|]. intros t _.
      apply touches_ret. exact I.
    + eapply touches_weaken; [apply touches_lift | auto].
  - intros t _. eapply touches_bind; [apply touches_modify, Hnode|]. intros _ _.
    apply touches_ret. exact Hnode.
Qed.

Lemma touches_load_image_layer n h image :
  touches_from n (load_image_layer h image) (from n).
Proof.
  unfold load_image_layer, new_NodePath, set_state.
  eapply touches_bind; [apply touches_construct|]. intros layer_node Hl.
  eapply touches_bind; [apply touches_texture_read|]. intros t _.
  eapply touches_bind; [apply touches_construct|]. intros image_node Hi.
  eapply touches_bind; [apply touches_modify, Hi|]. intros _ _.
  eapply touches_bind; [apply touches_reparent_to, Hl|]. intros _ _.
  apply touches_ret. exact Hl.
Qed.

Lemma touches_place_object n m o : touches_from n (place_object m o) (from n).
Proof.
  unfold place_object, new_NodePath, set_pos, set_scale, set_r.
  eapply touches_bind; [apply touches_construct|]. intros object_path Ho.
  eapply touches_bind with (Q := fun _ => True).
  - destruct (obj_shape o); try (apply touches_ret; exact I).
    eapply touches_bind; [apply touches_lift|]. intros ts _.
    eapply touches_bind; [apply touches_lift|]. intros a _.
    eapply touches_bind; [apply touches_generate_node|]. intros tile Ht.
    eapply touches_bind; [apply touches_attach_new_node, Ho|]. intros tile_path ->.
    destruct (obj_size o) as [ow oh].
    eapply touches_bind; [apply touches_lift|]. intros ws _.
    eapply touches_bind; [apply touches_lift|]. intros hs _.
    eapply touches_bind; [apply touches_modify, Ht|]. intros _ _.
    eapply touches_bind; [apply touches_modify, Ht|]. intros _ _.
    eapply touches_bind; [apply touches_get_collider|]. intros [c|] _.
    + eapply touches_bind; [apply touches_attach_new_node, Ht|]. intros _ _.
      apply touches_ret. exact I.
    + apply touches_ret. exact I.
  - intros _ _.
    eapply touches_bind; [apply touches_modify, Ho|]. intros _ _.
    eapply touches_bind; [apply touches_modify, Ho|]. intros _ _.
    apply touches_ret. exact Ho.
Qed.

Lemma touches_tile_layer_cell n m cp j a cell :
  from n cp -> touches_from n (tile_layer_cell m cp j a cell) (fun _ => True).
Proof.
  intros Hcp. unfold tile_layer_cell, attach_new_named, set_pos.
  destruct cell as [i gid]. destruct (tile_size m) as [tw th].
  eapply touches_bind; [apply touches_lift|]. intros a' _.
  eapply touches_bind; [apply touches_get_collider|]. intros [c|] _.
  - eapply touches_bind with (Q := fun _ => True).
    + eapply touches_bind with (Q := from n).
      * eapply touches_bind; [apply touches_construct|]. intros node Hnode.
        eapply touches_weaken; [apply touches_attach_new_node, Hcp|].
        intros p ->. exact Hnode.
      * intros collider_path Hc.
        eapply touches_bind; [apply touches_modify, Hc|]. intros _ _.
        eapply touches_bind; [apply touches_attach_new_node, Hc|]. intros _ _.
        apply touches_ret. exact I.
    + intros _ _. apply touches_ret. exact I.
  - eapply touches_bind with (Q := fun _ => True); [apply touches_ret; exact I|].
    intros _ _. apply touches_ret. exact I.
Qed.

Lemma touches_load_tile_layer n m h data :
  touches_from n (load_tile_layer m h data) (from n).
Proof.
  unfold load_tile_layer, new_NodePath.
  eapply touches_bind; [apply touches_construct|]. intros layer_node Hl.
  eapply touches_bind; [apply touches_construct|]. intros collider_parent Hcp.
  eapply touches_bind; [apply touches_lift|]. intros ts _.
  eapply touches_bind with (Q := fun _ => True).
  - apply touches_for_fold. intros b [j row].
    apply touches_for_fold. intros b' cell.
    apply touches_tile_layer_cell, Hcp.
  - intros a _.
    eapply touches_bind; [apply touches_generate_node|]. intros cluster Hc.
    eapply touches_bind; [apply touches_reparent_to, Hc|]. intros _ _.
    eapply touches_bind; [apply touches_reparent_to, Hl|]. intros _ _.
    apply touches_ret. exact Hl.
Qed.

Lemma touches_load_object_layer n m h objs :
  touches_from n (load_object_layer m h objs) (from n).
Proof.
  unfold load_object_layer, new_NodePath.
  eapply touches_bind; [apply touches_construct|]. intros layer_node Hl.
  eapply touches_bind with (Q := fun _ => True).
  - apply touches_for_each. intros o.
    eapply touches_bind; [apply touches_place_object|]. intros p _.
    apply touches_reparent_to, Hl.
  - intros _ _. apply touches_ret. exact Hl.
Qed.

(** ** Layers as computations on the state *)

Lemma touches_ext {A} n (c c' : M A) (Q : A -> Prop) :
  (forall s, c s = c' s) -> touches_from n c' Q -> touches_from n c Q.
Proof. intros Heq Hc s Hs. rewrite Heq. apply Hc, Hs. Qed.

Lemma touches_attach_each {A} n (compose : A -> M NodePath) parent_path xs :
  (forall x, touches_from n (compose x) (from n)) -> from n parent_path ->
  touches_from n (attach_each compose parent_path xs) (fun _ => True).
Proof.
  intros Hc Hp. apply touches_for_each. intros x.
  eapply touches_bind; [apply Hc|]. intros p _. apply touches_reparent_to, Hp.
Qed.

Lemma load_layers_as_loop m root ls s :
  snd (load_layers m root ls s) = attach_each (compose_layer m) root ls s.
Proof.
  revert s. unfold attach_each.
  induction ls as [|l ls IH]; intros s; simpl; [reflexivity|].
  unfold mbind, M_bind, compose_layer.
  destruct (load_layer m l s) as [l' [s1 [p|e]]]; simpl; [|reflexivity].
  specialize (IH (set_scene s1 (next_node s1)
                    (alter (with_children (fun c => c ++ [p])) root (scene s1)))).
  destruct (load_layers m root ls _) as [ls' out]. exact IH.
Qed.

Lemma compose_group m h ls s :
  compose_layer m (LayerGroup h (Some ls)) s
  = (layer_node ← new_NodePath (layer_name h);
     _ ← attach_each (compose_layer m) layer_node ls;
     mret layer_node) s.
Proof.
  unfold compose_layer at 1. simpl. unfold mbind at 1 2. unfold M_bind at 1 2. simpl.
  set (root := next_node s).
  match goal with
  | |- context [ (fix each (ls : list Layer) (s : State) {struct ls} := _) ls ?s1 ] =>
      generalize s1
  end.
  clearbody root. clear s. intros s1.
  assert (Hloop : forall ls s,
    snd ((fix each (ls : list Layer) (s : State) {struct ls}
            : list Layer * (State * Result unit) :=
            match ls with
            | [] => ([], (s, Ok tt))
            | sublayer :: rest =>
                let '(sublayer, (s, r)) := load_layer m sublayer s in
                match r with
                | Raise e => (sublayer :: rest, (s, Raise e))
                | Ok sublayer_node =>
                    let '(s, _) := reparent_to sublayer_node root s in
                    let '(rest, out) := each rest s in
                    (sublayer :: rest, out)
                end
            end) ls s)
    = attach_each (compose_layer m) root ls s).
  { clear. unfold attach_each. induction ls as [|l ls IH]; intros s0; simpl; [reflexivity|].
    unfold mbind, M_bind, compose_layer.
    destruct (load_layer m l s0) as [l' [s1 [p|e]]]; simpl; [|reflexivity].
    match goal with |- context [(fix each (ls : list Layer) (s : State) {struct ls} := _) ls ?s2] =>
      specialize (IH s2); destruct ((fix each (ls : list Layer) (s : State) {struct ls} := _) ls s2)
        as [ls' out] end.
    exact IH. }
  specialize (Hloop ls s1). simpl in Hloop.
  match goal with |- context [(fix each (ls : list Layer) (s : State) {struct ls} := _) ls s1] =>
    destruct ((fix each (ls : list Layer) (s : State) {struct ls} := _) ls s1) as [ls' [s2 r]] end.
  simpl in *. rewrite <- Hloop. destruct r as [[]|e]; reflexivity.
Qed.

Lemma touches_compose_layer m l : forall n, touches_from n (compose_layer m l) (from n).
Proof.
  induction l as [h data|h objs|h image|h|h|h ls IH] using Layer_nested_ind; intros n.
  - apply (touches_load_tile_layer n m h data).
  - apply (touches_load_object_layer n m h objs).
  - apply (touches_load_image_layer n h (path_join (parent (map_file m)) image)).
  - intros s Hs. split; [apply frame_from_refl | discriminate].
  - eapply touches_ext with (c' := new_NodePath (layer_name h)); [reflexivity|].
    apply touches_construct.
  - eapply touches_ext; [apply compose_group|].
    eapply touches_bind; [apply touches_construct|]. intros layer_node Hl0.
    eapply touches_bind with (Q := fun _ => True).
    + apply touches_for_each_in.
      induction IH as [|l ls Hl _ IHls]; constructor; [|exact IHls].
      eapply touches_bind; [apply Hl|]. intros p _. apply touches_reparent_to, Hl0.
    + intros _ _. apply touches_ret. exact Hl0.
Qed.

(** ** One child per composed element *)

Lemma children_after_reparent s child parent_path :
  is_Some (scene s !! parent_path) ->
  children_of (fst (reparent_to child parent_path s)) parent_path
  = children_of s parent_path ++ [child].
Proof.
  intros [nd Hnd]. unfold children_of, reparent_to, modify. simpl.
  rewrite lookup_alter_eq, Hnd. reflexivity.
Qed.

Lemma frame_keeps_children n s s' p :
  frame_from n s s' -> (p < n)%nat -> children_of s' p = children_of s p.
Proof. intros (_ & Hs & _) Hp. unfold children_of. rewrite Hs by exact Hp. reflexivity. Qed.

Lemma attach_each_children {A} (compose : A -> M NodePath) parent_path xs :
  Forall (fun x => forall n, touches_from n (compose x) (from n)) xs ->
  forall s s',
    (parent_path < next_node s)%nat ->
    is_Some (scene s !! parent_path) ->
    attach_each compose parent_path xs s = (s', Ok tt) ->
    exists nodes,
      children_of s' parent_path = children_of s parent_path ++ nodes
      /\ length nodes = length xs
      /\ Forall (from (next_node s)) nodes.
Proof.
  unfold attach_each.
  induction 1 as [|x xs Hx _ IH]; intros s s' Hlt Hsome.
  - intros [= <-]. exists []. rewrite app_nil_r. repeat split. constructor.
  - cbn [for_each]. unfold mbind, M_bind in IH |- *.
    destruct (Hx (next_node s) s (le_n _)) as [Hf Hfresh].
    destruct (compose x s) as [s1 [p|e]]; cbn [fst snd] in Hf, Hfresh; cbv beta iota;
      [|discriminate].
    specialize (Hfresh p eq_refl).
    assert (Hs1 : scene s1 !! parent_path = scene s !! parent_path)
      by (destruct Hf as (_ & Hs & _); apply Hs, Hlt).
    assert (Hsome1 : is_Some (scene s1 !! parent_path)).
    { destruct Hsome as [nd Hnd]. exists nd. etransitivity; [exact Hs1 | exact Hnd]. }
    pose proof (children_after_reparent s1 p parent_path Hsome1) as Hch.
    set (s2 := fst (reparent_to p parent_path s1)) in *.
    change (reparent_to p parent_path s1) with (s2, Ok tt).
    assert (Hn1 : (next_node s <= next_node s1)%nat) by (destruct Hf; assumption).
    assert (Hsome2 : is_Some (scene s2 !! parent_path)).
    { destruct Hsome1 as [nd Hnd]. exists (with_children (fun c => c ++ [p]) nd).
      subst s2. unfold reparent_to, modify. cbn [fst scene set_scene].
      etransitivity; [apply lookup_alter_eq|].
      match goal with |- _ <$> ?x = _ => change x with (scene s1 !! parent_path) end.
      rewrite Hnd. reflexivity. }
    intros Hrest.
    destruct (IH s2 s' ltac:(subst s2; cbn; lia) Hsome2 Hrest)
      as (nodes & Hnodes & Hlen & Hall).
    exists (p :: nodes). split; [|split].
    + rewrite Hnodes, Hch.
      rewrite (frame_keeps_children _ _ _ _ Hf Hlt), <- app_assoc. reflexivity.
    + simpl. rewrite Hlen. reflexivity.
    + constructor; [exact Hfresh|].
      eapply Forall_impl; [exact Hall|]. unfold from. intros q Hq.
      subst s2. cbn in Hq. lia.
Qed.

Lemma MapLoader_load_map_extends m s : extends s (fst (snd (MapLoader_load_map m s))).
Proof.
  unfold MapLoader_load_map.
  assert (H : touches_from (next_node s)
                (root ← new_NodePath (stem (map_file m));
                 _ ← attach_each (compose_layer m) root (layers m);
                 mret root) (from (next_node s))).
  { eapply touches_bind; [apply touches_construct|]. intros root Hroot.
    eapply touches_bind with (Q := fun _ => True).
    - apply touches_for_each. intros l.
      eapply touches_bind; [apply touches_compose_layer|]. intros p _.
      apply touches_reparent_to, Hroot.
    - intros _ _. apply touches_ret. exact Hroot. }
  destruct (H s (le_n _)) as [Hf _]. revert Hf.
  unfold mbind at 1 2. unfold M_bind at 1 2. simpl.
  match goal with |- context [attach_each _ ?root _ ?s1] =>
    rewrite <- (load_layers_as_loop m root (layers m) s1);
    destruct (load_layers m root (layers m) s1) as [ls' [s2 [[]|e]]] end;
    simpl; auto.
Qed.

Lemma extends_composed_over s s' : extends s s' -> composed_over s s'.
Proof.
  intros (Hn & Hscene & Hreg & Himg).
  split; [exact Hn|]. split; [exact Hreg|]. split; [exact Himg|]. split.
  - intros p Hp _. apply Hscene, Hp.
  - intros gid c _ Hc. unfold record_kept. pose proof (Hscene c Hc) as Hsame.
    unfold NodePath in *. rewrite Hsame. destruct (scene s !! c); auto 10.
Qed.

(** X9. What composing leaves of the state it starts from, whatever layer
    is composed or object placed, for [MapLoader.load_map] too, and
    whether or not the run raises: no node reference is reused; the
    registry is unchanged; every node constructed before the call that
    the registry does not hold is unchanged; and a node that the registry
    holds keeps its name, its solids, its transform, its render state and
    its children.  (Such a node is attached below the collider locations
    and tile nodes of the run; the parent links it gains are not part of
    its record.) *)
Theorem composing_extends (m : TiledMap) (s : State) :
  (forall layer, composed_over s (fst (snd (load_layer m layer s))))
  /\ (forall o, composed_over s (fst (place_object m o s)))
  /\ composed_over s (fst (snd (MapLoader_load_map m s))).
Proof.
  split; [|split].
  - intros layer. apply extends_composed_over.
    apply (touches_compose_layer m layer (next_node s) s). lia.
  - intros o. apply extends_composed_over.
    apply (touches_place_object (next_node s) m o s). lia.
  - apply extends_composed_over, MapLoader_load_map_extends.
Qed.

(** ** The nodes of the composed elements *)

Lemma frame_from_grid_frame n cp s s' :
  (next_node s <= n)%nat -> frame_from n s s' -> grid_frame cp s s'.
Proof.
  intros Hn (Hnext & Hs & Hc & Hr). repeat split; try assumption.
  intros p Hp _. apply Hs. lia.
Qed.

Lemma attach_each_frame {A} (compose : A -> M NodePath) parent_path xs :
  Forall (fun x => forall n, touches_from n (compose x) (from n)) xs ->
  forall s, grid_frame parent_path s (fst (attach_each compose parent_path xs s)).
Proof.
  unfold attach_each.
  induction 1 as [|x xs Hx _ IH]; intros s; [apply grid_frame_refl|].
  cbn [for_each]. unfold mbind, M_bind in IH |- *.
  destruct (Hx (next_node s) s (le_n _)) as [Hf _].
  destruct (compose x s) as [s1 [p|e]]; cbn [fst snd] in Hf; cbv beta iota.
  - set (s2 := fst (reparent_to p parent_path s1)).
    change (reparent_to p parent_path s1) with (s2, Ok tt). cbv beta iota.
    eapply grid_frame_trans; [|apply IH].
    eapply grid_frame_trans; [eapply frame_from_grid_frame; [|exact Hf]; lia|].
    subst s2. unfold reparent_to, modify, grid_frame. cbn.
    split; [lia|]. split; [|split; reflexivity].
    intros q Hq Hne. rewrite lookup_alter_ne by congruence. reflexivity.
  - eapply frame_from_grid_frame; [|exact Hf]. lia.
Qed.

Lemma with_children_twice (nd : PandaNode) (p : NodePath) (nodes : list NodePath) :
  with_children (fun c => c ++ nodes) (with_children (fun c => c ++ [p]) nd)
  = with_children (fun c => c ++ p :: nodes) nd.
Proof. unfold with_children. simpl. rewrite <- app_assoc. reflexivity. Qed.

Lemma attach_each_spec {A} (compose : A -> M NodePath) parent_path xs
    (post : A -> option PandaNode -> Prop) :
  Forall (fun x => (forall n, touches_from n (compose x) (from n))
                   /\ returns_first compose post x) xs ->
  forall s s' nd,
    (parent_path < next_node s)%nat ->
    scene s !! parent_path = Some nd ->
    attach_each compose parent_path xs s = (s', Ok tt) ->
    exists nodes,
      scene s' !! parent_path = Some (with_children (fun c => c ++ nodes) nd)
      /\ Forall2 (fun x q => post x (scene s' !! q)
                             /\ (next_node s <= q < next_node s')%nat) xs nodes
      /\ (next_node s <= next_node s')%nat.
Proof.
  intros Hall.
  assert (Htouch : Forall (fun x => forall n, touches_from n (compose x) (from n)) xs).
  { eapply Forall_impl; [exact Hall|]. intros x [H _]. exact H. }
  revert Htouch. unfold attach_each.
  induction Hall as [|x xs [Hx Hfirst] _ IH]; intros Htouch s s' nd Hlt Hnd.
  - intros [= <-]. exists []. split; [|split; [constructor | lia]].
    rewrite Hnd. f_equal. destruct nd. unfold with_children. simpl.
    rewrite app_nil_r. reflexivity.
  - cbn [for_each]. unfold mbind, M_bind in IH |- *.
    destruct (Hx (next_node s) s (le_n _)) as [Hf _].
    specialize (Hfirst s). 
    destruct (compose x s) as [s1 [p|e]]; cbn [fst snd] in Hf; cbv beta iota;
      [|discriminate].
    destruct (Hfirst s1 p eq_refl) as (Hp & Hp1 & Hpost).
    set (s2 := fst (reparent_to p parent_path s1)).
    change (reparent_to p parent_path s1) with (s2, Ok tt). cbv beta iota.
    intros Hrest.
    assert (Hs1 : scene s1 !! parent_path = Some nd).
    { destruct Hf as (_ & Hs & _). etransitivity; [apply Hs, Hlt | exact Hnd]. }
    assert (Hs2 : scene s2 !! parent_path
                  = Some (with_children (fun c => c ++ [p]) nd)).
    { subst s2. unfold reparent_to, modify. cbn [fst scene set_scene].
      etransitivity; [apply lookup_alter_eq|].
      match goal with |- _ <$> ?x = _ => change x with (scene s1 !! parent_path) end.
      rewrite Hs1. reflexivity. }
    assert (Hn2 : next_node s2 = next_node s1) by reflexivity.
    assert (Hn1 : (next_node s <= next_node s1)%nat) by (destruct Hf; assumption).
    inversion Htouch as [|? ? _ Htouch']; subst.
    destruct (IH Htouch' s2 s' _ ltac:(lia) Hs2 Hrest) as (nodes & Hpar & Hnodes & Hnext).
    exists (next_node s :: nodes). split; [|split; [|lia]].
    + rewrite Hpar, with_children_twice. reflexivity.
    + constructor.
      * split; [|lia].
        pose proof (attach_each_frame compose parent_path xs Htouch' s2) as Hfr.
        unfold attach_each in Hfr. unfold mbind, M_bind in Hfr. rewrite Hrest in Hfr.
        destruct Hfr as (_ & Hkeep & _). cbn [fst] in Hkeep.
        rewrite Hkeep by lia.
        subst s2. unfold reparent_to, modify. cbn [fst scene set_scene].
        rewrite lookup_alter_ne by lia. exact Hpost.
      * eapply Forall2_impl; [exact Hnodes|]. intros y q [Hy Hq]. split; [exact Hy | lia].
Qed.

Lemma place_object_returns_first m o : returns_first (place_object m) object_node o.
Proof.
  intros s s1 p. unfold place_object.
  unfold mbind, M_bind, lift, new_NodePath, construct, set_pos, set_r, modify. simpl.
  destruct (obj_shape o) as [gid| | | | | |]; simpl.
  2-7: intros [= <- <-]; split; [reflexivity|]; split; [simpl; lia|];
       eexists; split; [simpl; heap_lookup; reflexivity | simpl; auto].
  destruct (find_source m gid) as [ts|e]; simpl; [|discriminate].
  destruct (TileArranger_add_tile (new_TileArranger ts) gid 0 0) as [a|e]; simpl;
    [|discriminate].
  destruct (ts_image (tileset a)) as [img|] eqn:Himg.
  2: { rewrite (generate_node_no_image _ _ Himg). discriminate. }
  rewrite (generate_node_ok _ _ _ Himg). simpl.
  destruct (obj_size o) as [ow oh]. simpl.
  destruct (true_div ow (fst (tile_size m))) as [ws|e]; simpl; [|discriminate].
  destruct (true_div oh (snd (tile_size m))) as [hs|e]; simpl; [|discriminate].
  unfold get_collider. simpl.
  destruct (colliders s !! gid) as [c|]; simpl;
    intros [= <- <-]; (split; [reflexivity|]); (split; [simpl; lia|]);
    eexists; (split; [simpl; heap_lookup; reflexivity | simpl; auto]).
Qed.

(** ** Tile layers: the whole grid *)

(** What a composed tile layer went through. *)
Lemma load_tile_layer_ok m h data s s' p :
  load_tile_layer m h data s = (s', Ok p) ->
  exists ts a img s3,
    dict_get (tilesets m) 1 = Some ts
    /\ arrange_grid (new_TileArranger ts) (default [] data) = Ok a
    /\ ts_image ts = Some img
    /\ for_fold (enumerate (default [] data)) (new_TileArranger ts)
         (fun tile_arranger '(j, row) =>
            for_fold (enumerate row) tile_arranger
              (tile_layer_cell m (S (next_node s)) j))
         (fst (new_NodePath "cluster_collider" (fst (new_NodePath (layer_name h) s))))
       = (s3, Ok a)
    /\ p = next_node s
    /\ s' = tile_layer_finished s3 a img (next_node s) (S (next_node s)).
Proof.
  unfold load_tile_layer, dict_getitem.
  destruct (dict_get (tilesets m) 1) as [ts|] eqn:Hts; [|discriminate].
  unfold mbind at 1 2 3. unfold M_bind at 1 2 3.
  unfold new_NodePath, construct, lift. simpl.
  set (s2 := set_scene _ _ _).
  unfold mbind at 1. unfold M_bind at 1.
  destruct (grid_loop_frame m (S (next_node s)) (enumerate (default [] data))
              (new_TileArranger ts) s2) as [Hres _].
  simpl in Hres.
  destruct (for_fold _ _ _ s2) as [s3 r] eqn:Hloop. simpl in Hres.
  destruct r as [a|e]; [|discriminate].
  assert (Hta : tileset a = ts).
  { symmetry in Hres. apply arrange_grid_tileset in Hres. exact Hres. }
  destruct (ts_image ts) as [img|] eqn:Himg.
  - assert (Himg' : ts_image (tileset a) = Some img) by (rewrite Hta; exact Himg).
    unfold mbind, M_bind. rewrite (generate_node_ok _ _ _ Himg'). simpl.
    intros [= <- <-]. exists ts, a, img, s3.
    split; [reflexivity|]. split; [symmetry; exact Hres|]. split; [exact Himg|].
    split; [exact Hloop|]. split; reflexivity.
  - assert (Himg' : ts_image (tileset a) = None) by (rewrite Hta; exact Himg).
    unfold mbind, M_bind. rewrite (generate_node_no_image _ _ Himg'). discriminate.
Qed.

Lemma with_children_app (nd : PandaNode) (xs ys : list NodePath) :
  with_children (fun c => c ++ ys) (with_children (fun c => c ++ xs) nd)
  = with_children (fun c => c ++ (xs ++ ys)) nd.
Proof. unfold with_children. simpl. rewrite <- app_assoc. reflexivity. Qed.

Lemma with_children_nil (nd : PandaNode) : with_children (fun c => c ++ []) nd = nd.
Proof. destruct nd. unfold with_children. simpl. rewrite app_nil_r. reflexivity. Qed.

Lemma collider_location_same_node s s' location placed :
  scene s' !! location = scene s !! location ->
  collider_location s location placed -> collider_location s' location placed.
Proof.
  unfold collider_location, children_of, pos_of. intros ->. auto.
Qed.

Lemma row_colliders m cp j cells :
  forall a s s' a' nd,
    for_fold cells a (tile_layer_cell m cp j) s = (s', Ok a') ->
    (cp < next_node s)%nat ->
    scene s !! cp = Some nd ->
    exists locations,
      scene s' !! cp = Some (with_children (fun c => c ++ locations) nd)
      /\ Forall2 (fun location placed =>
                    collider_location s' location placed
                    /\ (next_node s <= location < next_node s')%nat)
           locations (placed_in_row (colliders s) m j cells).
Proof.
  induction cells as [|[i gid] cells IH]; intros a s s' a' nd.
  - intros [= <- <-] _ Hnd. exists []. rewrite with_children_nil.
    split; [exact Hnd | constructor].
  - cbn [for_fold]. unfold mbind, M_bind. intros Hrun Hcp Hnd.
    destruct (TileArranger_add_tile a gid i j) as [a1|e] eqn:Ha.
    2: { rewrite (tile_layer_cell_raise _ _ _ _ _ _ _ _ Ha) in Hrun. discriminate. }
    unfold placed_in_row. cbn [flat_map]. fold (placed_in_row (colliders s) m j cells).
    destruct (colliders s !! gid) as [c|] eqn:Hc.
    + rewrite (tile_layer_cell_some _ _ _ _ _ _ _ _ _ Ha Hc) in Hrun.
      set (pos := V3 _ _ _) in *. set (s1 := collider_placed s cp c pos) in *.
      assert (Hcp1 : scene s1 !! cp
                     = Some (with_children (fun ch => ch ++ [next_node s]) nd)).
      { subst s1. unfold collider_placed. cbn [scene set_scene]. heap_lookup.
        rewrite Hnd. reflexivity. }
      assert (Hloc1 : collider_location s1 (next_node s) (c, pos)).
      { subst s1. unfold collider_location, children_of, pos_of, collider_placed.
        cbn [scene set_scene fst snd]. heap_lookup. split; reflexivity. }
      destruct (IH a1 s1 s' a' _ Hrun ltac:(subst s1; cbn; lia) Hcp1)
        as (locations & Hpar & Hall).
      pose proof (row_frame m cp j cells a1 s1) as [_ Hfr]. rewrite Hrun in Hfr.
      cbn [fst] in Hfr. destruct Hfr as (Hnext & Hkeep & _).
      exists (next_node s :: locations). split.
      * rewrite Hpar, with_children_twice. reflexivity.
      * cbn [app]. constructor.
        -- split; [|subst s1; cbn in Hnext |- *; lia].
           eapply collider_location_same_node; [|exact Hloc1].
           apply Hkeep; subst s1; cbn; lia.
        -- eapply Forall2_impl; [exact Hall|]. intros q e [Hq Hb].
           split; [exact Hq | subst s1; cbn in Hb; lia].
    + rewrite (tile_layer_cell_none _ _ _ _ _ _ _ _ Ha Hc) in Hrun.
      destruct (IH a1 s s' a' nd Hrun Hcp Hnd) as (locations & Hpar & Hall).
      exists locations. split; [exact Hpar | exact Hall].
Qed.

Lemma grid_colliders m cp rows :
  forall a s s' a' nd,
    for_fold rows a (fun a '(j, row) =>
      for_fold (enumerate row) a (tile_layer_cell m cp j)) s = (s', Ok a') ->
    (cp < next_node s)%nat ->
    scene s !! cp = Some nd ->
    exists locations,
      scene s' !! cp = Some (with_children (fun c => c ++ locations) nd)
      /\ Forall2 (fun location placed =>
                    collider_location s' location placed
                    /\ (next_node s <= location < next_node s')%nat)
           locations (placed_in_grid (colliders s) m rows).
Proof.
  induction rows as [|[j row] rows IH]; intros a s s' a' nd.
  - intros [= <- <-] _ Hnd. exists []. rewrite with_children_nil.
    split; [exact Hnd | constructor].
  - cbn [for_fold]. unfold mbind, M_bind. intros Hrun Hcp Hnd.
    destruct (for_fold (enumerate row) a (tile_layer_cell m cp j) s) as [s1 [a1|e]] eqn:Hrow;
      [|discriminate].
    destruct (row_colliders m cp j (enumerate row) a s s1 a1 nd Hrow Hcp Hnd)
      as (locs1 & Hpar1 & Hall1).
    pose proof (row_frame m cp j (enumerate row) a s) as [_ Hfr1]. rewrite Hrow in Hfr1.
    cbn [fst] in Hfr1. destruct Hfr1 as (Hnext1 & _ & Hreg1 & _).
    destruct (IH a1 s1 s' a' _ Hrun ltac:(lia) Hpar1) as (locs2 & Hpar2 & Hall2).
    pose proof (grid_loop_frame m cp rows a1 s1) as [_ Hfr2]. cbv zeta in Hfr2.
    rewrite Hrun in Hfr2. cbn [fst] in Hfr2. destruct Hfr2 as (Hnext2 & Hkeep2 & _).
    exists (locs1 ++ locs2). split.
    + rewrite Hpar2, with_children_app. reflexivity.
    + cbn [placed_in_grid flat_map]. fold (placed_in_grid (colliders s) m rows).
      apply Forall2_app.
      * eapply Forall2_impl; [exact Hall1|]. intros q e [Hq Hb]. split; [|lia].
        eapply collider_location_same_node; [|exact Hq]. apply Hkeep2; lia.
      * rewrite <- Hreg1.
        eapply Forall2_impl; [exact Hall2|]. intros q e [Hq Hb]. split; [exact Hq | lia].
Qed.

(** *** Six vertices for every tile *)

Lemma add_tile_rows a gid x y a' :
  TileArranger_add_tile a gid x y = Ok a' ->
  length (vertex_data (geom_builder a'))
  = (length (vertex_data (geom_builder a)) + if (gid =? 0)%Z then 0 else 6)%nat.
Proof.
  unfold TileArranger_add_tile, truthy. destruct (gid =? 0); simpl.
  - intros [= <-]. lia.
  - unfold mbind, result_bind.
    destruct (get_tile_uv_transform _ _); [|discriminate].
    intros [= <-]. simpl. apply builder_add_tile_length.
Qed.

Lemma map_snd_enumerate_from {A} (i : Z) (xs : list A) :
  map snd (enumerate_from i xs) = xs.
Proof.
  revert i. induction xs as [|x xs IH]; intros i; simpl; [reflexivity|].
  rewrite IH. reflexivity.
Qed.

Lemma arrange_row_rows j cells :
  forall a a',
    result_fold cells a (fun a '(i, gid) => TileArranger_add_tile a gid i j) = Ok a' ->
    length (vertex_data (geom_builder a'))
    = (length (vertex_data (geom_builder a))
       + 6 * length (List.filter (fun gid => negb (gid =? 0)%Z) (map snd cells)))%nat.
Proof.
  induction cells as [|[i gid] cells IH]; intros a a'; simpl.
  - intros [= <-]. lia.
  - unfold mbind, result_bind.
    destruct (TileArranger_add_tile a gid i j) as [a1|e] eqn:Ha; [|discriminate].
    intros Hrest. rewrite (IH _ _ Hrest), (add_tile_rows _ _ _ _ _ Ha).
    destruct (gid =? 0); simpl; lia.
Qed.

Lemma arrange_grid_rows_from i data :
  forall a a',
    result_fold (enumerate_from i data) a (fun a '(j, row) =>
      result_fold (enumerate row) a (fun a '(i, gid) => TileArranger_add_tile a gid i j))
    = Ok a' ->
    length (vertex_data (geom_builder a'))
    = (length (vertex_data (geom_builder a)) + 6 * tiles_in_grid data)%nat.
Proof.
  unfold tiles_in_grid. revert i.
  induction data as [|row data IH]; intros i a a'; simpl.
  - intros [= <-]. lia.
  - unfold mbind, result_bind.
    destruct (result_fold (enumerate row) a _) as [a1|e] eqn:Hrow; [|discriminate].
    intros Hrest. rewrite (IH _ _ _ Hrest), (arrange_row_rows _ _ _ _ Hrow).
    unfold enumerate. rewrite map_snd_enumerate_from.
    rewrite List.filter_app, length_app. lia.
Qed.

(** The scene a composed tile layer leaves. *)
Lemma tile_layer_scene m h data s s' p :
  load_tile_layer m h data s = (s', Ok p) ->
  p = next_node s
  /\ exists cluster geom rs locations,
       scene s' !! p
       = Some (with_children (fun c => c ++ [cluster]) (fresh_node (layer_name h) PlainNode))
       /\ (p < cluster < next_node s')%nat
       /\ geoms_of s' cluster = [(geom, rs)]
       /\ length (geom_vertex_data geom) = (6 * tiles_in_grid (default [] data))%nat
       /\ geom_triangles geom = (6 * tiles_in_grid (default [] data))%nat
       /\ children_of s' cluster = [S (next_node s)]
       /\ children_of s' (S (next_node s)) = locations
       /\ Forall2 (collider_location s') locations
            (placed_in_grid (colliders s) m (enumerate (default [] data))).
Proof.
  intros Hrun.
  destruct (load_tile_layer_ok m h data s s' p Hrun)
    as (ts & a & img & s3 & Hts & Hgrid & Himg & Hloop & -> & ->).
  split; [reflexivity|].
  set (n := next_node s) in *.
  set (s2 := fst (new_NodePath "cluster_collider" (fst (new_NodePath (layer_name h) s)))) in *.
  assert (Hcp2 : scene s2 !! S n = Some (fresh_node "cluster_collider" PlainNode)).
  { subst s2 n. unfold new_NodePath, construct. cbn [fst scene set_scene next_node].
    heap_lookup. reflexivity. }
  assert (Hl2 : scene s2 !! n = Some (fresh_node (layer_name h) PlainNode)).
  { subst s2 n. unfold new_NodePath, construct. cbn [fst scene set_scene next_node].
    heap_lookup. reflexivity. }
  assert (Hn2 : next_node s2 = S (S n)) by reflexivity.
  assert (Hreg2 : colliders s2 = colliders s) by reflexivity.
  destruct (grid_colliders m (S n) _ _ s2 s3 a _ Hloop ltac:(lia) Hcp2)
    as (locations & Hpar & Hall).
  pose proof (grid_loop_frame m (S n) (enumerate (default [] data))
                (new_TileArranger ts) s2) as [_ Hfr]. cbv zeta in Hfr.
  rewrite Hloop in Hfr. cbn [fst] in Hfr. destruct Hfr as (Hnext & Hkeep & _).
  assert (Hl3 : scene s3 !! n = Some (fresh_node (layer_name h) PlainNode)).
  { rewrite Hkeep by lia. exact Hl2. }
  pose proof (arrange_grid_rows_from 0 (default [] data) _ _ Hgrid) as Hrows.
  simpl in Hrows.
  exists (next_node s3), (generate_geom (geom_builder a)),
    (make_render_state (tileset_texture s3 img)), locations.
  unfold tile_layer_finished, reparent_to, modify, node_generated, children_of, geoms_of.
  cbn [fst scene set_scene next_node]. heap_lookup. unfold NodePath in *.
  rewrite Hl3, Hpar. cbn.
  repeat split; try reflexivity; try lia; try exact Hrows.
  rewrite Hreg2 in Hall.
  eapply Forall2_impl; [exact Hall|]. intros q e [[Hch Hpos] Hb].
  unfold collider_location, children_of, pos_of in *.
  cbn [fst scene set_scene next_node]. heap_lookup. split; assumption.
Qed.

(** X10. A composed tile layer, whatever its grid: the layer node is the
    first node constructed and carries the layer's name; its only child
    is the batch node, whose one mesh has six vertices, in triangles, for
    every cell that is not empty; below the batch node is the collider
    parent, with one location for every cell whose gid, as stored in the
    cell with its flag bits, is a key of the registry, in row-major order,
    each at (column * tile width, 0, -row * tile height) and holding the
    registered node. *)
Theorem tile_layer_structure
    (m : TiledMap) (h : LayerHeader) (data : option (list (list Z)))
    (s s' : State) (p : NodePath) :
  load_tile_layer m h data s = (s', Ok p) ->
  p = next_node s
  /\ layer_node_of (TileLayer h data) (scene s' !! p)
  /\ exists cluster geom rs,
       children_of s' p = [cluster]
       /\ geoms_of s' cluster = [(geom, rs)]
       /\ length (geom_vertex_data geom) = (6 * tiles_in_grid (default [] data))%nat
       /\ geom_triangles geom = (6 * tiles_in_grid (default [] data))%nat
       /\ children_of s' cluster = [S (next_node s)]
       /\ Forall2 (collider_location s') (children_of s' (S (next_node s)))
            (placed_in_grid (colliders s) m (enumerate (default [] data))).
Proof.
  intros Hrun.
  destruct (tile_layer_scene m h data s s' p Hrun)
    as (Hp & cluster & geom & rs & locations & Hnode & _ & Hg & Hlen & Htri & Hc & Hl & Hall).
  split; [exact Hp|]. split.
  - rewrite Hnode. eexists. split; [reflexivity|]. cbn. auto.
  - exists cluster, geom, rs. unfold children_of at 1. rewrite Hnode. cbn.
    rewrite Hl. auto 10.
Qed.

(** ** The scene tree mirrors the document *)

(** A node constructed under [name], then given one child per element. *)
Lemma named_parent_scene {A} (compose : A -> M NodePath) (name : string) (xs : list A)
    (post : A -> option PandaNode -> Prop) (s s' : State) (p : NodePath) :
  Forall (fun x => (forall n, touches_from n (compose x) (from n))
                   /\ returns_first compose post x) xs ->
  (layer_node ← new_NodePath name;
   _ ← attach_each compose layer_node xs;
   mret layer_node) s = (s', Ok p) ->
  p = next_node s
  /\ (p < next_node s')%nat
  /\ exists nodes,
       scene s' !! p = Some (with_children (fun c => c ++ nodes) (fresh_node name PlainNode))
       /\ Forall2 (fun x q => post x (scene s' !! q)) xs nodes.
Proof.
  intros Hall. unfold mbind at 1 2. unfold M_bind at 1 2.
  unfold new_NodePath, construct. cbv beta iota.
  set (s1 := set_scene s _ _).
  destruct (attach_each compose (next_node s) xs s1) as [s2 [[]|e]] eqn:Hloop;
    [|discriminate].
  intros [= <- <-].
  assert (Hnd : scene s1 !! next_node s = Some (fresh_node name PlainNode)).
  { subst s1. cbn [scene set_scene]. apply lookup_insert_eq. }
  destruct (attach_each_spec compose (next_node s) xs post Hall s1 s2 _
              ltac:(subst s1; cbn; lia) Hnd Hloop) as (nodes & Hpar & Hnodes & Hnext).
  split; [reflexivity|]. split; [subst s1; cbn in Hnext; lia|].
  exists nodes. split; [exact Hpar|].
  eapply Forall2_impl; [exact Hnodes|]. intros x q [Hx _]. exact Hx.
Qed.

Lemma Forall_all {A} (P : A -> Prop) (xs : list A) : (forall x, P x) -> Forall P xs.
Proof. intros H. induction xs; constructor; auto. Qed.

(** X11. A composed object layer: the layer node is the first node
    constructed and carries the layer's name; it has exactly one child
    for every object of the layer, in the order of the layer, and the
    child of an object carries the object's name, sits at (x, 0, -y) and
    is rolled by the object's rotation. *)
Theorem object_layer_mirrors_objects
    (m : TiledMap) (h : LayerHeader) (objs : list TiledObject)
    (s s' : State) (p : NodePath) :
  load_object_layer m h objs s = (s', Ok p) ->
  p = next_node s
  /\ layer_node_of (ObjectLayer h objs) (scene s' !! p)
  /\ Forall2 (fun o q => object_node o (scene s' !! q)) objs (children_of s' p).
Proof.
  intros Hrun.
  destruct (named_parent_scene (place_object m) (layer_name h) objs object_node s s' p)
    as (Hp & _ & nodes & Hnode & Hall).
  - apply Forall_all. intros o. split;
      [intros n; apply touches_place_object | apply place_object_returns_first].
  - exact Hrun.
  - split; [exact Hp|]. unfold children_of. rewrite Hnode. split.
    + eexists. split; [reflexivity|]. cbn. auto 10.
    + exact Hall.
Qed.

Lemma compose_layer_returns_first m l : returns_first (compose_layer m) layer_node_of l.
Proof.
  induction l as [h data|h objs|h image|h|h|h ls IH] using Layer_nested_ind;
    intros s s' p Hrun.
  - destruct (tile_layer_scene m h data s s' p Hrun)
      as (Hp & cluster & geom & rs & locations & Hnode & Hlt & _).
    split; [exact Hp|]. split; [lia|]. rewrite Hnode.
    eexists. split; [reflexivity|]. cbn. auto 10.
  - destruct (named_parent_scene (place_object m) (layer_name h) objs object_node s s' p)
      as (Hp & Hlt & nodes & Hnode & _).
    + apply Forall_all. intros o. split;
        [intros n; apply touches_place_object | apply place_object_returns_first].
    + exact Hrun.
    + split; [exact Hp|]. split; [exact Hlt|]. rewrite Hnode.
      eexists. split; [reflexivity|]. cbn. auto 10.
  - revert Hrun. unfold compose_layer, load_layer, load_image_layer.
    unfold mbind, M_bind, new_NodePath, construct, texture_read, set_state,
      reparent_to, modify. cbn. intros [= <- <-].
    split; [reflexivity|]. split; [cbn; lia|]. cbn. heap_lookup.
    eexists. split; [reflexivity|]. cbn. auto 10.
  - discriminate.
  - revert Hrun. unfold compose_layer. cbn. intros [= <- <-].
    split; [reflexivity|]. split; [cbn; lia|]. cbn. heap_lookup.
    eexists. split; [reflexivity|]. cbn. auto 10.
  - rewrite compose_group in Hrun.
    destruct (named_parent_scene (compose_layer m) (layer_name h) ls layer_node_of s s' p)
      as (Hp & Hlt & nodes & Hnode & _).
    + eapply Forall_impl; [exact IH|]. intros l Hl. split;
        [intros n; apply touches_compose_layer | exact Hl].
    + exact Hrun.
    + split; [exact Hp|]. split; [exact Hlt|]. rewrite Hnode.
      eexists. split; [reflexivity|]. cbn. auto 10.
Qed.

Lemma layers_compose_well m (ls : list Layer) :
  Forall (fun l => (forall n, touches_from n (compose_layer m l) (from n))
                   /\ returns_first (compose_layer m) layer_node_of l) ls.
Proof.
  apply Forall_all. intros l. split;
    [intros n; apply touches_compose_layer | apply compose_layer_returns_first].
Qed.

(** X12. A composed layer group: the group node is the first node
    constructed and carries the group's name, unmoved and unscaled; it has
    exactly one child for every sublayer, in the order of the group, and
    the child of a sublayer carries the sublayer's name.  A group whose
    list of layers is absent has no child. *)
Theorem layer_group_mirrors_sublayers
    (m : TiledMap) (h : LayerHeader) (sublayers : option (list Layer))
    (s s' : State) (p : NodePath) (layer' : Layer) :
  load_layer m (LayerGroup h sublayers) s = (layer', (s', Ok p)) ->
  p = next_node s
  /\ layer_node_of (LayerGroup h sublayers) (scene s' !! p)
  /\ Forall2 (fun l q => layer_node_of l (scene s' !! q))
       (default [] sublayers) (children_of s' p).
Proof.
  intros Hrun.
  assert (Hc : compose_layer m (LayerGroup h sublayers) s = (s', Ok p)).
  { unfold compose_layer. rewrite Hrun. reflexivity. }
  clear Hrun. destruct sublayers as [ls|].
  - rewrite compose_group in Hc.
    destruct (named_parent_scene (compose_layer m) (layer_name h) ls layer_node_of s s' p
                (layers_compose_well m ls) Hc) as (Hp & _ & nodes & Hnode & Hall).
    split; [exact Hp|]. unfold children_of. rewrite Hnode. split.
    + eexists. split; [reflexivity|]. cbn. auto 10.
    + exact Hall.
  - revert Hc. unfold compose_layer. cbn. intros [= <- <-].
    split; [reflexivity|]. unfold children_of. cbn. heap_lookup. split.
    + eexists. split; [reflexivity|]. cbn. auto 10.
    + constructor.
Qed.

Lemma map_root_scene (m : TiledMap) (s s' : State) (root : NodePath) :
  snd (MapLoader_load_map m s) = (s', Ok root) ->
  root = next_node s
  /\ (exists nd, scene s' !! root = Some nd /\ node_name nd = stem (map_file m))
  /\ Forall2 (fun l q => layer_node_of l (scene s' !! q)) (layers m) (children_of s' root).
Proof.
  intros Hrun.
  assert (Hc : (layer_node ← new_NodePath (stem (map_file m));
                _ ← attach_each (compose_layer m) layer_node (layers m);
                mret layer_node) s = (s', Ok root)).
  { revert Hrun. unfold MapLoader_load_map.
    unfold mbind at 1 2. unfold M_bind at 1 2. unfold new_NodePath, construct.
    cbv beta iota.
    match goal with |- context [load_layers m ?r (layers m) ?s1] =>
      rewrite <- (load_layers_as_loop m r (layers m) s1);
      destruct (load_layers m r (layers m) s1) as [ls' [s2 [[]|e]]] end;
      cbn; [|discriminate].
    intros [= <- <-]. reflexivity. }
  destruct (named_parent_scene (compose_layer m) _ (layers m) layer_node_of s s' root
              (layers_compose_well m (layers m)) Hc) as (Hp & _ & nodes & Hnode & Hall).
  split; [exact Hp|]. unfold children_of. rewrite Hnode. split.
  - eexists. split; [reflexivity|]. reflexivity.
  - exact Hall.
Qed.

(** X13. A loaded map: the root is the first node constructed and is
    named by the stem of the map file; it has exactly one child for every
    top-level layer, in document order, and the child of a layer carries
    the layer's name. *)
Theorem map_root_mirrors_layers
    (m m' : TiledMap) (s s' : State) (root : NodePath) :
  MapLoader_load_map m s = (m', (s', Ok root)) ->
  root = next_node s
  /\ (exists nd, scene s' !! root = Some nd /\ node_name nd = stem (map_file m))
  /\ Forall2 (fun l q => layer_node_of l (scene s' !! q)) (layers m) (children_of s' root).
Proof. intros Hrun. apply map_root_scene. rewrite Hrun. reflexivity. Qed.

(** ** Collider registry: outcome, frame and lookup *)

Lemma load_collider_box o :
  load_collider o
  = match collider_error o with
    | None => Ok (collider_box o)
    | Some e => Raise e
    end.
Proof.
  unfold load_collider, collider_error, collider_box, new_CollisionBox.
  destruct (obj_shape o); try reflexivity.
  destruct (obj_size o) as [w h]. cbn [fst snd vx vy vz].
  assert (Hw : Qeq_bool 0 w = Qeq_bool w 0).
  { apply eq_true_iff_eq. rewrite !Qeq_bool_iff. split; intros H; symmetry; exact H. }
  assert (Hh : Qeq_bool (- h) 0 = Qeq_bool h 0).
  { apply eq_true_iff_eq. rewrite !Qeq_bool_iff. split; intros H; lra. }
  rewrite Hw, Hh. change (Qeq_bool (-16) 16) with false. rewrite orb_false_r.
  destruct (Qeq_bool w 0 || Qeq_bool h 0); reflexivity.
Qed.

Lemma first_error_app (xs ys : list TiledObject) :
  first_error (xs ++ ys)
  = match first_error xs with
    | Some e => Some e
    | None => first_error ys
    end.
Proof.
  induction xs as [|o xs IH]; cbn [app first_error]; [reflexivity|].
  destruct (collider_error o); [reflexivity | exact IH].
Qed.

(** The loop that fills one collision node. *)
Lemma add_solids_loop node objs :
  forall s acc,
    scene s !! node = Some (fresh_node "collision_node" (CollisionNode acc)) ->
    let out := for_each objs (fun o => solid ← lift (load_collider o);
                                       add_solid node solid) s in
    next_node (fst out) = next_node s
    /\ colliders (fst out) = colliders s
    /\ read_image (fst out) = read_image s
    /\ (forall p, p <> node -> scene (fst out) !! p = scene s !! p)
    /\ snd out
       = match first_error objs with
         | None => Ok tt
         | Some e => Raise e
         end
    /\ (snd out = Ok tt ->
        scene (fst out) !! node
        = Some (fresh_node "collision_node"
                  (CollisionNode (acc ++ map collider_box objs)))).
Proof.
  induction objs as [|o objs IH]; intros s acc Hnd out; subst out.
  - cbn. repeat split; try reflexivity. intros _. rewrite app_nil_r. exact Hnd.
  - cbn [for_each first_error map]. unfold mbind, M_bind, lift in IH |- *.
    rewrite (load_collider_box o).
    destruct (collider_error o) as [e|].
    + cbn. repeat split; try reflexivity. discriminate.
    + set (s1 := fst (add_solid node (collider_box o) s)).
      change (add_solid node (collider_box o) s) with (s1, Ok tt). cbv beta iota.
      assert (Hnd1 : scene s1 !! node
                     = Some (fresh_node "collision_node"
                               (CollisionNode (acc ++ [collider_box o])))).
      { subst s1. unfold add_solid, modify. cbn [fst scene set_scene].
        rewrite lookup_alter_eq. unfold NodePath in *. rewrite Hnd. reflexivity. }
      destruct (IH s1 (acc ++ [collider_box o]) Hnd1) as (Hn & Hc & Hr & Hs & Hres & Hok).
      split; [exact Hn|]. split; [exact Hc|]. split; [exact Hr|]. split; [|split].
      * intros p Hp. rewrite Hs by exact Hp. subst s1. unfold add_solid, modify.
        cbn [fst scene set_scene]. rewrite lookup_alter_ne by congruence. reflexivity.
      * exact Hres.
      * intros Hrun. rewrite (Hok Hrun), <- app_assoc. reflexivity.
Qed.

Lemma registry_frame_refl K s : registry_frame K s s.
Proof. repeat split; auto. Qed.

Lemma registry_frame_trans (K1 K2 K : Z -> Prop) s1 s2 s3 :
  (forall gid, K1 gid -> K gid) -> (forall gid, K2 gid -> K gid) ->
  registry_frame K1 s1 s2 -> registry_frame K2 s2 s3 -> registry_frame K s1 s3.
Proof.
  intros H1 H2 (Hn1 & Hs1 & Hc1 & Hr1) (Hn2 & Hs2 & Hc2 & Hr2). repeat split.
  - lia.
  - intros p Hp. rewrite Hs2 by lia. apply Hs1, Hp.
  - intros gid Hgid. rewrite Hc2 by auto. apply Hc1. auto.
  - congruence.
Qed.

Lemma collider_of_tile_with_objects ts t h objs s :
  tile_objects t = Some (ObjectLayer h objs) ->
  collider_of_tile ts t s
  = match for_each objs (fun o => solid ← lift (load_collider o);
                                  add_solid (next_node s) solid)
            (fst (construct "collision_node" (CollisionNode []) s)) with
    | (s2, Ok _) => register_collider (firstgid ts + tile_id t) (next_node s) s2
    | (s2, Raise e) => (s2, Raise e)
    end.
Proof. intros H. unfold collider_of_tile. rewrite H. reflexivity. Qed.

Lemma collider_of_tile_without_objects ts t s :
  no_object_layer t -> collider_of_tile ts t s = (s, Ok tt).
Proof.
  unfold no_object_layer, collider_of_tile.
  destruct (tile_objects t) as [[]|]; try contradiction; reflexivity.
Qed.

(** One tile of a tileset. *)
Lemma collider_of_tile_effect ts t s :
  registry_frame (fun gid => ~ no_object_layer t /\ gid = firstgid ts + tile_id t)
    s (fst (collider_of_tile ts t s))
  /\ snd (collider_of_tile ts t s)
     = match first_error (collider_shapes t) with
       | None => Ok tt
       | Some e => Raise e
       end
  /\ (snd (collider_of_tile ts t s) = Ok tt -> ~ no_object_layer t ->
      colliders (fst (collider_of_tile ts t s)) !! (firstgid ts + tile_id t)
      = Some (next_node s)
      /\ (next_node s < next_node (fst (collider_of_tile ts t s)))%nat
      /\ scene (fst (collider_of_tile ts t s)) !! next_node s
         = Some (fresh_node "collision_node"
                   (CollisionNode (map collider_box (collider_shapes t))))).
Proof.
  destruct (tile_objects t) as [[h data|h objs|h image|h ls|h]|] eqn:Hobj.
  2: {
    rewrite (collider_of_tile_with_objects ts t h objs s Hobj).
    unfold collider_shapes, no_object_layer. rewrite Hobj.
    set (s1 := fst (construct "collision_node" (CollisionNode []) s)).
    assert (Hnd1 : scene s1 !! next_node s
                   = Some (fresh_node "collision_node" (CollisionNode [])))
      by (subst s1; cbn [fst construct scene set_scene]; apply lookup_insert_eq).
    assert (Hn1 : next_node s1 = S (next_node s)) by reflexivity.
    assert (Hsc1 : forall p, (p < next_node s)%nat -> scene s1 !! p = scene s !! p).
    { intros p Hp. subst s1. cbn [fst construct scene set_scene].
      rewrite lookup_insert_ne by lia. reflexivity. }
    destruct (add_solids_loop (next_node s) objs s1 [] Hnd1)
      as (Hn & Hc & Hr & Hs & Hres & Hok).
    destruct (for_each objs _ s1) as [s2 [[]|e]] eqn:Hloop; cbn [fst snd] in *.
    - unfold register_collider, registry_frame.
      cbn [fst snd colliders set_colliders scene next_node read_image].
      split; [|split].
      + split; [lia|]. split; [|split].
        * intros p Hp. rewrite Hs by lia. apply Hsc1, Hp.
        * intros gid Hgid. rewrite Hc.
          rewrite lookup_insert_ne; [reflexivity|]. intros <-. apply Hgid. tauto.
        * rewrite Hr. reflexivity.
      + exact Hres.
      + intros _ _. split; [apply lookup_insert_eq|]. split; [lia|].
        exact (Hok eq_refl).
    - split; [|split].
      + split; [lia|]. split; [|split].
        * intros p Hp. rewrite Hs by lia. apply Hsc1, Hp.
        * intros gid _. rewrite Hc. reflexivity.
        * rewrite Hr. reflexivity.
      + exact Hres.
      + rewrite Hres. destruct (first_error objs); discriminate. }
  all: rewrite (collider_of_tile_without_objects ts t s)
         by (unfold no_object_layer; rewrite Hobj; exact I);
       unfold collider_shapes, no_object_layer; rewrite Hobj; cbn;
       (split; [apply registry_frame_refl|]); (split; [reflexivity|]); tauto.
Qed.

(** The loop over tiles, each with its tileset. *)
Lemma tiles_loop_effect (l : list (Tileset * Tile)) :
  forall s,
    let out := for_each l (fun x => collider_of_tile (fst x) (snd x)) s in
    registry_frame (fun gid => exists x, In x l /\ ~ no_object_layer (snd x)
                                         /\ gid = global_id x) s (fst out)
    /\ snd out
       = match first_error (flat_map (fun x => collider_shapes (snd x)) l) with
         | None => Ok tt
         | Some e => Raise e
         end
    /\ (snd out = Ok tt -> List.NoDup (map global_id l) ->
        forall x, In x l -> ~ no_object_layer (snd x) ->
          exists node,
            colliders (fst out) !! global_id x = Some node
            /\ (next_node s <= node < next_node (fst out))%nat
            /\ scene (fst out) !! node
               = Some (fresh_node "collision_node"
                         (CollisionNode (map collider_box (collider_shapes (snd x)))))).
Proof.
  induction l as [|x0 l IH]; intros s out; subst out.
  - cbn. split; [apply registry_frame_refl|]. split; [reflexivity|].
    intros _ _ x [].
  - cbn [for_each flat_map]. rewrite first_error_app. unfold mbind, M_bind.
    destruct (collider_of_tile_effect (fst x0) (snd x0) s) as (Hf0 & Hres0 & Hok0).
    destruct (collider_of_tile (fst x0) (snd x0) s) as [s1 [[]|e]]; cbn [fst snd] in *.
    + destruct (IH s1) as (Hf & Hres & Hok).
      destruct (first_error (collider_shapes (snd x0))); [discriminate Hres0|].
      split; [|split].
      * eapply registry_frame_trans; [| |exact Hf0|exact Hf].
        -- intros gid [Hobj ->]. exists x0. split; [left; reflexivity | auto].
        -- intros gid (x & Hin & Hobj & ->). exists x. split; [right; exact Hin | auto].
      * exact Hres.
      * intros Hrun Hnodup x Hin Hobj. cbn [map] in Hnodup.
        inversion Hnodup as [|? ? Hnotin Hnodup']; subst.
        destruct Hf0 as (Hn0 & _). destruct Hf as (Hn & Hs & Hc & _).
        destruct Hin as [<- | Hin].
        -- destruct (Hok0 eq_refl Hobj) as (Hk & Hlt & Hnode).
           exists (next_node s). split; [|split; [lia|]].
           ++ rewrite Hc; [exact Hk|]. intros (x' & Hin' & _ & Heq).
              apply Hnotin. apply in_map_iff. exists x'. split; [auto | exact Hin'].
           ++ rewrite Hs by exact Hlt. exact Hnode.
        -- destruct (Hok Hrun Hnodup' x Hin Hobj) as (node & Hk & Hb & Hnode).
           exists node. split; [exact Hk|]. split; [lia | exact Hnode].
    + destruct (first_error (collider_shapes (snd x0))) as [e0|]; [|discriminate Hres0].
      injection Hres0 as ->.
      split; [|split; [reflexivity | discriminate]].
      eapply (registry_frame_trans _ (fun _ => False));
        [| |exact Hf0|apply registry_frame_refl].
      * intros gid [Hobj ->]. exists x0. split; [left; reflexivity | auto].
      * intros gid [].
Qed.

Lemma for_each_map {A B} (f : A -> B) (xs : list A) (body : B -> M unit) s :
  for_each (map f xs) body s = for_each xs (fun x => body (f x)) s.
Proof.
  revert s. induction xs as [|x xs IH]; intros s; cbn [map for_each]; [reflexivity|].
  unfold mbind, M_bind. destruct (body (f x) s) as [s1 [[]|e]]; [apply IH | reflexivity].
Qed.

Lemma load_colliders_as_loop ts s :
  load_colliders ts s
  = for_each (map (pair ts) (tiles_of ts)) (fun x => collider_of_tile (fst x) (snd x)) s.
Proof.
  rewrite for_each_map. unfold load_colliders, tiles_of.
  destruct (tiles ts); reflexivity.
Qed.

(** The two nested loops are one loop over the tiles of the map. *)
Lemma load_tile_colliders_as_loop m s :
  load_tile_colliders m s
  = for_each (map_tiles m) (fun x => collider_of_tile (fst x) (snd x)) s.
Proof.
  unfold load_tile_colliders, map_tiles. revert s.
  induction (dict_values (tilesets m)) as [|ts rest IH]; intros s; [reflexivity|].
  cbn [flat_map for_each]. rewrite for_each_app.
  unfold mbind, M_bind. rewrite load_colliders_as_loop.
  destruct (for_each (map (pair ts) (tiles_of ts)) _ s) as [s1 [[]|e]];
    [apply IH | reflexivity].
Qed.

Lemma clear_flags_small gid : 0 <= gid < 2 ^ 28 -> clear_flags gid = gid.
Proof.
  intros Hgid. apply Z.bits_inj'. intros n Hn. rewrite clear_flags_testbit by exact Hn.
  destruct (is_flag_bit n) eqn:Hflag; [|cbn; apply andb_true_r].
  unfold is_flag_bit in Hflag. apply andb_prop in Hflag as [Hlo _].
  apply Z.leb_le in Hlo. cbn [negb]. rewrite andb_false_r.
  symmetry. apply Z.bits_above_log2; [lia|].
  destruct (Z.eq_dec gid 0) as [->|Hne]; [cbn; lia|].
  apply Z.log2_lt_pow2; [lia|].
  apply Z.lt_le_trans with (2 ^ 28); [lia|]. apply Z.pow_le_mono_r; lia.
Qed.

(** X14. The outcome of loading the tile colliders of a map.  It returns
    when no collider shape of the map gives an error: every shape of every
    tile's object layer is a rectangle, with a width and a height that are
    not zero.  Otherwise it raises the error of the first offending shape,
    in the order tilesets, tiles and objects are visited:
    [UnsupportedError] for a shape that is not a rectangle,
    [AssertionError], out of the box constructor, for a rectangle without
    width or height.  Either way the nodes constructed before are
    unchanged, and the registry is unchanged outside the gids
    [firstgid + tile.id] of the tiles that carry an object layer. *)
Theorem load_tile_colliders_outcome (m : TiledMap) (s : State) :
  registry_frame (collider_gid m) s (fst (load_tile_colliders m s))
  /\ snd (load_tile_colliders m s)
     = match first_error (map_collider_shapes m) with
       | None => Ok tt
       | Some e => Raise e
       end
  /\ (forall e, first_error (map_collider_shapes m) = Some e ->
        e = AssertionError
        \/ e = UnsupportedError (Msg "Non-rectangular colliders not yet supported")).
Proof.
  rewrite load_tile_colliders_as_loop.
  destruct (tiles_loop_effect (map_tiles m) s) as (Hf & Hres & _).
  split; [exact Hf|]. split; [exact Hres|]. clear Hf Hres.
  unfold map_collider_shapes.
  induction (flat_map (fun x => collider_shapes (snd x)) (map_tiles m)) as [|o objs IH];
    cbn [first_error]; [discriminate|].
  intros e. unfold collider_error at 1.
  destruct (obj_shape o); cbv beta iota.
  2: destruct (Qeq_bool _ 0 || Qeq_bool _ 0); [intros [= <-]; auto | apply IH].
  all: intros [= <-]; auto.
Qed.

(** X15. Loading then looking up: on a map whose tiles have pairwise
    distinct gids, once the tile colliders are loaded every tile that
    carries an object layer is registered under [firstgid + tile.id], and
    the registered node is a collision node constructed by the load that
    holds, in order, one box from (0, -16, -height) to (width, 16, 0) for
    each rectangle of the tile. *)
Theorem load_tile_colliders_registers
    (m : TiledMap) (s s' : State) (ts : Tileset) (t : Tile) :
  load_tile_colliders m s = (s', Ok tt) ->
  List.NoDup (map global_id (map_tiles m)) ->
  In (ts, t) (map_tiles m) ->
  ~ no_object_layer t ->
  exists node,
    get_collider (firstgid ts + tile_id t) s' = (s', Ok (Some node))
    /\ (next_node s <= node < next_node s')%nat
    /\ scene s' !! node
       = Some (fresh_node "collision_node"
                 (CollisionNode (map collider_box (collider_shapes t)))).
Proof.
  intros Hrun Hnodup Hin Hobj. rewrite load_tile_colliders_as_loop in Hrun.
  destruct (tiles_loop_effect (map_tiles m) s) as (_ & _ & Hok).
  rewrite Hrun in Hok. cbn [fst snd] in Hok.
  destruct (Hok eq_refl Hnodup (ts, t) Hin Hobj) as (node & Hk & Hb & Hnode).
  exists node. unfold global_id in Hk. cbn [fst snd] in Hk.
  split; [unfold get_collider; do 2 f_equal; exact Hk | auto].
Qed.

Lemma load_tile_colliders_registers_witness :
  exists node,
    get_collider 1 crate_state = (crate_state, Ok (Some node))
    /\ (0 <= node < next_node crate_state)%nat
    /\ scene crate_state !! node
       = Some (fresh_node "collision_node"
                 (CollisionNode [CollisionBox (V3 0 (-16) (-16)) (V3 32 16 0)])).
Proof.
  apply (load_tile_colliders_registers crate_map empty_state crate_state
           crate_tileset crate_tile).
  - reflexivity.
  - repeat constructor. intros [].
  - left. reflexivity.
  - intros H. exact H.
Defined.

(** X16. The registry is keyed by [firstgid + tile.id] and looked up with
    the gid as a cell or an object stores it: on a map whose tiles have
    gids that fit below the flag bits, looked up after the tile colliders
    are loaded into an empty registry, a gid that carries any of the four
    flags has no collider. *)
Theorem flagged_gid_has_no_collider (m : TiledMap) (s : State) (gid : Z) :
  colliders s = ∅ ->
  (forall x, In x (map_tiles m) -> 0 <= global_id x < 2 ^ 28) ->
  clear_flags gid <> gid ->
  let s' := fst (load_tile_colliders m s) in
  get_collider gid s' = (s', Ok None).
Proof.
  intros Hempty Hkeys Hflag s'. subst s'.
  destruct (tiles_loop_effect (map_tiles m) s) as ((_ & _ & Hc & _) & _).
  rewrite <- load_tile_colliders_as_loop in Hc.
  unfold get_collider. do 2 f_equal. etransitivity; [apply Hc|].
  - intros (x & Hin & _ & ->). apply Hflag, clear_flags_small, Hkeys, Hin.
  - rewrite Hempty. apply lookup_empty.
Qed.

Lemma flagged_gid_has_no_collider_witness :
  get_collider (Z.lor 1 HORIZONTAL_FLIP_FLAG) crate_state = (crate_state, Ok None).
Proof.
  apply (flagged_gid_has_no_collider crate_map empty_state (Z.lor 1 HORIZONTAL_FLIP_FLAG)).
  - reflexivity.
  - intros x [<- | []]. vm_compute. split; [discriminate | reflexivity].
  - vm_compute. discriminate.
Defined.

(** ** Tile layers: when composing one raises *)

(** Whether the atlas mapper raises, and what, does not depend on the
    tile index. *)
Lemma get_tile_uv_transform_any_index ts tile_id :
  match get_tile_uv_transform ts tile_id, get_tile_uv_transform ts 0 with
  | Ok _, Ok _ => True
  | Raise e, Raise e' => e = e'
  | _, _ => False
  end.
Proof.
  unfold get_tile_uv_transform.
  destruct (image_height ts) as [ih|]; [|reflexivity].
  destruct (image_width ts) as [iw|]; [|reflexivity].
  destruct (true_div 1 (inject_Z iw)) as [sx|e]; [|reflexivity]. cbn.
  destruct (true_div 1 (inject_Z ih)) as [sz|e]; [|reflexivity]. cbn.
  destruct (columns ts =? 0); [reflexivity|].
  destruct (atlas_origin ts tile_id), (atlas_origin ts 0). exact I.
Qed.

Lemma add_tile_outcome a gid x y :
  match (if gid =? 0 then Ok ident_mat else get_tile_uv_transform (tileset a) 0) with
  | Ok _ => exists a', TileArranger_add_tile a gid x y = Ok a' /\ tileset a' = tileset a
  | Raise e => TileArranger_add_tile a gid x y = Raise e
  end.
Proof.
  unfold TileArranger_add_tile, truthy. destruct (gid =? 0); cbn.
  - exists a. auto.
  - unfold mbind, result_bind.
    pose proof (get_tile_uv_transform_any_index (tileset a)
                  (Z.land gid (Z.lnot ALL_FLAGS) - firstgid (tileset a))) as H.
    destruct (get_tile_uv_transform (tileset a) (_ - _)) as [uv|e],
             (get_tile_uv_transform (tileset a) 0) as [uv0|e0]; try contradiction.
    + eexists. split; reflexivity.
    + subst. reflexivity.
Qed.

Lemma arrange_row_outcome j cells :
  forall a,
    let n := length (List.filter (fun gid => negb (gid =? 0)%Z) (map snd cells)) in
    let r := result_fold cells a (fun a '(i, gid) => TileArranger_add_tile a gid i j) in
    match (if (n =? 0)%nat then Ok ident_mat else get_tile_uv_transform (tileset a) 0) with
    | Ok _ => exists a', r = Ok a' /\ tileset a' = tileset a
    | Raise e => r = Raise e
    end.
Proof.
  induction cells as [|[i gid] cells IH]; intros a; cbn -[Nat.eqb].
  - exists a. auto.
  - unfold mbind, result_bind.
    pose proof (add_tile_outcome a gid i j) as Hcell.
    destruct (gid =? 0); cbn -[Nat.eqb] in *.
    + destruct Hcell as (a1 & -> & Hts). specialize (IH a1). cbn -[Nat.eqb] in IH.
      rewrite Hts in IH. exact IH.
    + destruct (get_tile_uv_transform (tileset a) 0) as [uv|e] eqn:Huv.
      * destruct Hcell as (a1 & -> & Hts). specialize (IH a1). cbn -[Nat.eqb] in IH.
        rewrite Hts, Huv in IH.
        destruct (_ =? 0)%nat; exact IH.
      * rewrite Hcell. reflexivity.
Qed.

Lemma arrange_grid_outcome_from i data :
  forall a,
    let r := result_fold (enumerate_from i data) a (fun a '(j, row) =>
               result_fold (enumerate row) a
                 (fun a '(i, gid) => TileArranger_add_tile a gid i j)) in
    match (if (tiles_in_grid data =? 0)%nat then Ok ident_mat
           else get_tile_uv_transform (tileset a) 0) with
    | Ok _ => exists a', r = Ok a' /\ tileset a' = tileset a
    | Raise e => r = Raise e
    end.
Proof.
  unfold tiles_in_grid. revert i.
  induction data as [|row data IH]; intros i a; cbn -[Nat.eqb].
  - exists a. auto.
  - unfold mbind, result_bind.
    pose proof (arrange_row_outcome i (enumerate row) a) as Hrow.
    cbn -[Nat.eqb] in Hrow. unfold enumerate in Hrow at 1.
    rewrite map_snd_enumerate_from in Hrow.
    rewrite List.filter_app, length_app.
    destruct (length (List.filter _ row)) as [|n].
    + cbn -[Nat.eqb] in *. destruct Hrow as (a1 & -> & Hts).
      specialize (IH (i + 1) a1). cbn -[Nat.eqb] in IH. rewrite Hts in IH. exact IH.
    + cbn in *. destruct (get_tile_uv_transform (tileset a) 0) as [uv|e] eqn:Huv.
      * destruct Hrow as (a1 & -> & Hts).
        specialize (IH (i + 1) a1). cbn -[Nat.eqb] in IH. rewrite Hts, Huv in IH.
        destruct (_ =? 0)%nat; exact IH.
      * rewrite Hrow. reflexivity.
Qed.

(** X17. Whether composing a tile layer raises, and what: [KeyError]
    without a tileset under key 1; else, when some cell is not empty,
    what the atlas mapper raises for that tileset ([ValueError] for
    unknown image dimensions, [ZeroDivisionError] for a zero dimension or
    column count); else [AssertionError] when the tileset has no image;
    else the layer node, the first node constructed.  The gids of the
    cells play no part beyond being zero or not: a gid outside the range
    of the tileset under key 1 is not rejected. *)
Theorem tile_layer_outcome
    (m : TiledMap) (h : LayerHeader) (data : option (list (list Z))) (s : State) :
  snd (load_tile_layer m h data s)
  = match dict_get (tilesets m) 1 with
    | None => Raise (KeyError 1)
    | Some ts =>
        match (if (tiles_in_grid (default [] data) =? 0)%nat then Ok ident_mat
               else get_tile_uv_transform ts 0) with
        | Raise e => Raise e
        | Ok _ =>
            match ts_image ts with
            | None => Raise AssertionError
            | Some _ => Ok (next_node s)
            end
        end
    end.
Proof.
  unfold load_tile_layer, dict_getitem.
  destruct (dict_get (tilesets m) 1) as [ts|] eqn:Hts; [|reflexivity].
  unfold mbind at 1 2 3. unfold M_bind at 1 2 3.
  unfold new_NodePath, construct, lift. simpl.
  set (s2 := set_scene _ _ _).
  unfold mbind at 1. unfold M_bind at 1.
  destruct (grid_loop_frame m (S (next_node s)) (enumerate (default [] data))
              (new_TileArranger ts) s2) as [Hres _].
  simpl in Hres.
  pose proof (arrange_grid_outcome_from 0 (default [] data) (new_TileArranger ts)) as Hgrid.
  cbn -[Nat.eqb tiles_in_grid] in Hgrid.
  destruct (for_fold _ _ _ s2) as [s3 r] eqn:Hloop. cbn [snd] in Hres.
  change (enumerate (default [] data)) with (enumerate_from 0 (default [] data)) in Hres.
  rewrite <- Hres in Hgrid. clear Hres.
  destruct (if (tiles_in_grid (default [] data) =? 0)%nat then _ else _) as [uv|e].
  - destruct Hgrid as (a & -> & Hta). cbn [tileset new_TileArranger] in Hta.
    destruct (ts_image ts) as [img|] eqn:Himg.
    + assert (Himg' : ts_image (tileset a) = Some img) by (rewrite Hta; exact Himg).
      unfold mbind, M_bind. rewrite (generate_node_ok _ _ _ Himg'). reflexivity.
    + assert (Himg' : ts_image (tileset a) = None) by (rewrite Hta; exact Himg).
      unfold mbind, M_bind. rewrite (generate_node_no_image _ _ Himg'). reflexivity.
  - rewrite Hgrid. reflexivity.
Qed.

(** ** Image layers *)

(** X18. An image layer composed through [load_layer]: the layer node is
    the first node constructed and carries the layer's name; its only
    child is a card named by the stem of the image file, whose frame spans
    (0, width) by (-height, 0) for the original size the engine reports
    of the file at [map_file.parent / image]; the texture bound to the
    card is made from that file with its alpha filled with the layer's
    opacity, and, the fill having given a colour image an alpha channel,
    the card of a colour image is alpha-blended whether or not the file
    has an alpha channel. *)
Theorem image_layer_card
    (m : TiledMap) (h : LayerHeader) (image : Path) (layer' : Layer)
    (s s' : State) (p : NodePath) :
  load_layer m (ImageLayer h image) s = (layer', (s', Ok p)) ->
  let file := path_join (parent (map_file m)) image in
  let size := read_image s file in
  p = next_node s
  /\ layer_node_of (ImageLayer h image) (scene s' !! p)
  /\ exists card nd rs,
       children_of s' p = [card]
       /\ scene s' !! card = Some nd
       /\ node_name nd = stem file
       /\ node_kind nd
          = CardNode (0, inject_Z (img_orig_file_x_size size),
                      inject_Z (- img_orig_file_y_size size), 0)%Q
       /\ node_children nd = []
       /\ node_state nd = Some rs
       /\ tex_file (rs_texture rs) = file
       /\ tex_alpha_fill (rs_texture rs) = Some (layer_opacity h)
       /\ (3 <= img_num_components size -> rs_alpha_blend rs = true).
Proof.
  intros Hrun file size. revert Hrun. cbn [load_layer]. fold file.
  unfold load_image_layer, mbind, M_bind, new_NodePath, construct, texture_read,
    set_state, reparent_to, modify, mret, M_ret.
  cbn [fst snd next_node scene set_scene read_image tex_image]. fold size.
  intros [= _ <- <-]. split; [reflexivity|].
  unfold children_of, layer_node_of. cbn [scene set_scene]. heap_lookup.
  split; [eexists; split; [reflexivity|]; cbn; auto 10|].
  eexists (S (next_node s)), _,
    (make_render_state (modify_opacity (MkTexture file size FT_default None)
                          (layer_opacity h))).
  split; [reflexivity|]. heap_lookup.
  split; [reflexivity|]. cbn [node_name node_kind node_children node_state with_state
                               fresh_node].
  split; [reflexivity|]. split; [reflexivity|]. split; [reflexivity|].
  split; [reflexivity|].
  unfold make_render_state, modify_opacity, with_alpha.
  cbn [tex_image img_num_components].
  destruct (img_num_components size <? 3) eqn:Hn.
  - cbn. split; [reflexivity|]. split; [reflexivity|]. apply Z.ltb_lt in Hn. lia.
  - cbn. split; [reflexivity|]. split; reflexivity.
Qed.

Lemma image_layer_card_witness :
  let out := load_layer crate_level background_layer empty_state in
  exists card nd rs,
    children_of (fst (snd out)) 0%nat = [card]
    /\ scene (fst (snd out)) !! card = Some nd
    /\ node_kind nd = CardNode (0, 128, -64, 0)%Q
    /\ node_state nd = Some rs
    /\ tex_file (rs_texture rs) = MkPath false ["maps"; "bg.png"]%string
    /\ rs_alpha_blend rs = true.
Proof.
  intros out.
  destruct (image_layer_card crate_level (MkLayerHeader "background" (1 # 2))
              (MkPath false ["bg.png"%string]) (fst out) empty_state (fst (snd out))
              0%nat)
    as (_ & _ & card & nd & rs & Hch & Hnd & _ & Hkind & _ & Hst & Hfile & _ & Hblend).
  - vm_compute. reflexivity.
  - exists card, nd, rs. split; [exact Hch|]. split; [exact Hnd|].
    split; [exact Hkind|]. split; [exact Hst|]. split; [exact Hfile|].
    apply Hblend. vm_compute. discriminate.
Defined.

Lemma path_join_twice (d p : Path) :
  path_join d (path_join d p) = path_join d p
  <-> path_absolute p = true \/ path_absolute d = true \/ path_parts d = [].
Proof.
  unfold path_join. destruct (path_absolute p) eqn:Habs; cbn.
  - rewrite Habs. tauto.
  - destruct (path_absolute d) eqn:Hd; [tauto|]. split.
    + intros [= Heq]. right. right.
      apply (f_equal (@length string)) in Heq. rewrite !length_app in Heq.
      destruct (path_parts d); [reflexivity | cbn in Heq; lia].
    + intros [Hf | [Hf | Hnil]]; try discriminate. rewrite Hnil. reflexivity.
Qed.

(** X19. Composing an image layer assigns its image path, so composing
    the layer object a second time starts from the path the first run
    left.  The second run reads [map_file.parent / image] again exactly
    when the image path is absolute, or the path of the map file is
    absolute, or the map file has no directory part; otherwise it reads
    the image path with the directory of the map file in front twice. *)
Theorem image_layer_composed_twice
    (m : TiledMap) (h : LayerHeader) (image : Path) (s1 s2 : State) :
  let once := fst (load_layer m (ImageLayer h image) s1) in
  let twice := fst (load_layer m once s2) in
  once = ImageLayer h (path_join (parent (map_file m)) image)
  /\ twice
     = ImageLayer h (path_join (parent (map_file m))
                       (path_join (parent (map_file m)) image))
  /\ (twice = once
      <-> path_absolute image = true \/ path_absolute (map_file m) = true
          \/ path_parts (parent (map_file m)) = []).
Proof.
  cbn [load_layer fst]. split; [reflexivity|]. split; [reflexivity|].
  change (path_absolute (map_file m)) with (path_absolute (parent (map_file m))).
  rewrite <- path_join_twice.
  split; [intros [= ->]; reflexivity | intros ->; reflexivity].
Qed.

(** ** The entry point, end to end *)

(** [load_map] on a document that passes the two checks. *)
Lemma load_map_supported parse_map path m s :
  parse_map path = Ok m ->
  infinite m = false ->
  orientation m = "orthogonal"%string ->
  load_map parse_map path s
  = match load_tile_colliders m (set_colliders s ∅) with
    | (s1, Ok _) => snd (MapLoader_load_map m s1)
    | (s1, Raise e) => (s1, Raise e)
    end.
Proof.
  intros Hparse Hinf Hori. unfold load_map, mbind, M_bind, lift, new_MapLoader.
  rewrite Hparse, Hinf, Hori. reflexivity.
Qed.

(** X20. A collider shape that gives an error, on any tile of any
    tileset, used by a layer or not, makes [load_map] raise for a finite
    orthogonal map: it raises the error of the first such shape in the
    order the tile colliders are loaded ([UnsupportedError] for a shape
    that is not a rectangle, [AssertionError] for a rectangle without
    width or height); no layer is composed, and the nodes constructed
    before the call are unchanged. *)
Theorem load_map_stops_at_collider_error
    (parse_map : Path -> Result TiledMap) (path : Path) (m : TiledMap) (s : State)
    (e : Exn) :
  parse_map path = Ok m ->
  infinite m = false ->
  orientation m = "orthogonal"%string ->
  first_error (map_collider_shapes m) = Some e ->
  load_map parse_map path s
  = (fst (load_tile_colliders m (set_colliders s ∅)), Raise e)
  /\ forall p, (p < next_node s)%nat ->
       scene (fst (load_map parse_map path s)) !! p = scene s !! p.
Proof.
  intros Hparse Hinf Hori Herr.
  rewrite (load_map_supported _ _ _ _ Hparse Hinf Hori).
  destruct (tiles_loop_effect (map_tiles m) (set_colliders s ∅))
    as ((_ & Hscene & _) & Hres & _).
  rewrite <- load_tile_colliders_as_loop in Hscene, Hres.
  fold (map_collider_shapes m) in Hres. rewrite Herr in Hres.
  destruct (load_tile_colliders m (set_colliders s ∅)) as [s1 r].
  cbn [fst snd] in *. subst r. split; [reflexivity|]. exact Hscene.
Qed.

Lemma load_map_stops_at_collider_error_witness :
  load_map (fun _ => Ok barrel_map) (MkPath false ["cellar.tmx"%string]) empty_state
  = (fst (load_tile_colliders barrel_map (set_colliders empty_state ∅)),
     Raise AssertionError)
  /\ forall p, (p < next_node empty_state)%nat ->
       scene (fst (load_map (fun _ => Ok barrel_map) (MkPath false ["cellar.tmx"%string])
                     empty_state)) !! p
       = scene empty_state !! p.
Proof.
  apply (load_map_stops_at_collider_error (fun _ => Ok barrel_map)
           (MkPath false ["cellar.tmx"%string]) barrel_map empty_state);
    reflexivity.
Defined.

(** X21. A map that [load_map] loads: the registry it leaves holds
    nothing but entries under the gids [firstgid + tile.id] of the
    document's own tiles that carry an object layer, whatever it held
    before; the root it returns is named by the stem of the map file and
    has one child for every top-level layer, in document order, carrying
    that layer's name; and the nodes constructed before the call are
    unchanged. *)
Theorem load_map_loaded
    (parse_map : Path -> Result TiledMap) (path : Path) (m : TiledMap)
    (s s' : State) (root : NodePath) :
  parse_map path = Ok m ->
  load_map parse_map path s = (s', Ok root) ->
  (forall gid, ~ collider_gid m gid -> colliders s' !! gid = None)
  /\ (exists nd, scene s' !! root = Some nd /\ node_name nd = stem (map_file m))
  /\ Forall2 (fun l q => layer_node_of l (scene s' !! q)) (layers m) (children_of s' root)
  /\ (next_node s <= root)%nat
  /\ forall p, (p < next_node s)%nat -> scene s' !! p = scene s !! p.
Proof.
  intros Hparse Hrun.
  assert (Hinf : infinite m = false).
  { revert Hrun. unfold load_map, mbind, M_bind, lift. rewrite Hparse.
    destruct (infinite m); [discriminate | reflexivity]. }
  assert (Hori : orientation m = "orthogonal"%string).
  { revert Hrun. unfold load_map, mbind, M_bind, lift. rewrite Hparse, Hinf.
    destruct (String.eqb_spec (orientation m) "orthogonal"); [auto | discriminate]. }
  rewrite (load_map_supported _ _ _ _ Hparse Hinf Hori) in Hrun.
  destruct (tiles_loop_effect (map_tiles m) (set_colliders s ∅))
    as ((Hn1 & Hscene1 & Hreg1 & _) & _).
  rewrite <- load_tile_colliders_as_loop in Hn1, Hscene1, Hreg1.
  fold (collider_gid m) in Hreg1.
  destruct (load_tile_colliders m (set_colliders s ∅)) as [s1 [[]|e]];
    [|discriminate]. cbn [fst snd next_node set_colliders scene colliders] in *.
  destruct (map_root_scene m s1 s' root Hrun) as (Hroot & Hname & Hlayers).
  pose proof (MapLoader_load_map_extends m s1) as (_ & Hscene2 & Hreg2 & _).
  rewrite Hrun in Hscene2, Hreg2. cbn [fst] in Hscene2, Hreg2.
  split; [|split; [exact Hname|split; [exact Hlayers|split; [lia|]]]].
  - intros gid Hgid. rewrite Hreg2, (Hreg1 gid Hgid). apply lookup_empty.
  - intros p Hp. rewrite Hscene2 by lia. apply Hscene1, Hp.
Qed.

Lemma load_map_loaded_witness :
  let s' := fst (load_map (fun _ => Ok crate_level) (MkPath false ["level.tmx"%string])
                   state_with_collider_5) in
  colliders s' !! 5 = None /\ length (children_of s' 2%nat) = 3%nat.
Proof.
  intros s'.
  destruct (load_map_loaded (fun _ => Ok crate_level) (MkPath false ["level.tmx"%string])
              crate_level state_with_collider_5 s' 2%nat eq_refl)
    as (Hreg & _ & Hlayers & _).
  - vm_compute. reflexivity.
  - split.
    + apply Hreg. intros (x & [<- | []] & _ & Hgid). vm_compute in Hgid. discriminate.
    + apply Forall2_length in Hlayers. rewrite <- Hlayers. reflexivity.
Defined.

(** ** Tile arranger: the quad of a tile *)

Lemma add_tile_quad_rows (t : LMatrix4) (uv : LMatrix4) (b : TileGeomBuilder) :
  vertex_data (TileGeomBuilder_add_tile b t uv)
  = vertex_data b
    ++ map (fun '(px, pz) =>
              MkRow (xform_point t (V3 px 0 pz)) (texcoord_of uv px pz)) quad_points.
Proof.
  unfold TileGeomBuilder_add_tile, quad_points, texcoord_of. cbn [fold_left map vertex_data].
  rewrite <- !app_assoc. reflexivity.
Qed.

Lemma unflipped_transform (gid : Z) :
  flip_bits gid = (false, false, false) ->
  snd (extract_tile_transform gid) = ident_mat.
Proof.
  unfold flip_bits. intros H.
  assert (Hd : Z.testbit gid 29 = false) by congruence.
  assert (Hh : Z.testbit gid 31 = false) by congruence.
  assert (Hv : Z.testbit gid 30 = false) by congruence.
  rewrite extract_tile_transform_by_bits, Hd, Hh, Hv. reflexivity.
Qed.

Lemma cell_corner_of_point (ts : Tileset) (x y : Z) (px pz : Q) :
  Qeq3 (xform_point
          (mat_mul ident_mat
             (mat_mul (translate_mat (inject_Z x) 0 (inject_Z (- y - 1)))
                (scale_mat (inject_Z (tile_width ts)) 1 (inject_Z (tile_height ts)))))
          (V3 px 0 pz))
       (cell_corner ts x y px pz).
Proof.
  unfold Qeq3, cell_corner, xform_point, mat_mul, vec4_comb, ident_mat, translate_mat,
    scale_mat.
  cbn [vx vy vz wx wy wz ww row0 row1 row2 row3]. repeat split; ring.
Qed.

(** X22. The quad of a tile: adding a tile with a gid that is not zero at
    cell (x, y) appends six rows to the batch, one for each corner of the
    two triangles of the unit quad, and leaves the arranger's tileset as
    it was.  The texture coordinate of a corner is the atlas mapper's,
    for the local index [gid without flags - firstgid].  For a gid
    without flip flags, in a cell where single precision is exact, the
    vertex of the corner (px, pz) is
    ((px + x) * tile_width, 0, (pz - y - 1) * tile_height): the quad of
    cell (x, y) spans x to x + 1 tile widths and hangs from -y down to
    -y - 1 tile heights.  (Under a flip flag the engine's half turn is
    not exact and the vertex is only near its flipped corner.) *)
Theorem add_tile_quad (a a' : TileArranger) (gid x y : Z) :
  gid <> 0 ->
  TileArranger_add_tile a gid x y = Ok a' ->
  exists uv rows,
    get_tile_uv_transform (tileset a) (clear_flags gid - firstgid (tileset a)) = Ok uv
    /\ tileset a' = tileset a
    /\ vertex_data (geom_builder a') = vertex_data (geom_builder a) ++ rows
    /\ Forall2 (fun '(px, pz) row =>
                  row_texcoord row = texcoord_of uv px pz
                  /\ (flip_bits gid = (false, false, false) ->
                      cell_exact (tileset a) x y ->
                      Qeq3 (row_vertex row) (cell_corner (tileset a) x y px pz)))
         quad_points rows.
Proof.
  intros Hgid. unfold TileArranger_add_tile, truthy.
  apply Z.eqb_neq in Hgid. rewrite Hgid. cbn [negb].
  pose proof (unflipped_transform gid) as Hflip.
  change (extract_tile_transform gid)
    with (clear_flags gid, snd (extract_tile_transform gid)).
  set (flip := snd (extract_tile_transform gid)) in *. clearbody flip.
  cbv beta iota. unfold mbind, result_bind.
  destruct (get_tile_uv_transform (tileset a) _) as [uv|e]; [|discriminate].
  intros Hrun. apply (f_equal (fun r => match r with Ok b => b | Raise _ => a end)) in Hrun.
  subst a'. exists uv. eexists. split; [reflexivity|]. split; [reflexivity|].
  cbn [geom_builder tileset]. split; [apply add_tile_quad_rows|].
  unfold quad_points. cbn [map].
  repeat (constructor;
          [split; [reflexivity|];
           intros Hbits _; cbn [row_vertex]; rewrite (Hflip Hbits);
           apply cell_corner_of_point|]).
  constructor.
Qed.

Lemma add_tile_quad_witness :
  exists a' uv rows,
    TileArranger_add_tile (new_TileArranger atlas_4x2) 6 5 0 = Ok a'
    /\ get_tile_uv_transform atlas_4x2 5 = Ok uv
    /\ vertex_data (geom_builder a') = rows
    /\ Forall2 (fun '(px, pz) row =>
                  row_texcoord row = texcoord_of uv px pz
                  /\ Qeq3 (row_vertex row) (V3 ((px + 5) * 32) 0 ((pz + -1) * 32)))
         quad_points rows.
Proof.
  destruct (TileArranger_add_tile (new_TileArranger atlas_4x2) 6 5 0) as [a'|e] eqn:Hrun;
    [|vm_compute in Hrun; discriminate Hrun].
  destruct (add_tile_quad (new_TileArranger atlas_4x2) a' 6 5 0 ltac:(discriminate) Hrun)
    as (uv & rows & Huv & _ & Hrows & Hquad).
  exists a', uv, rows. split; [reflexivity|]. split; [exact Huv|].
  split; [exact Hrows|].
  assert (Hexact : cell_exact atlas_4x2 5 0)
    by (unfold cell_exact, single_exact; repeat constructor; vm_compute; discriminate).
  clear Hrun Hrows Huv. induction Hquad as [|[px pz] row pts rows' [Htex Hvertex] _ IH];
    constructor; [|exact IH].
  split; [exact Htex | exact (Hvertex eq_refl Hexact)].
Defined.

(** ** The further properties at concrete documents *)

Lemma transform_depends_on_flip_bits_only_witness :
  snd (extract_tile_transform (Z.lor 5 HORIZONTAL_FLIP_FLAG))
  = snd (extract_tile_transform
           (Z.lor 9 (Z.lor HORIZONTAL_FLIP_FLAG HEXAGONAL_ROTATION_FLAG))).
Proof.
  apply (transform_depends_on_flip_bits_only (Z.lor 5 HORIZONTAL_FLIP_FLAG)
           (Z.lor 9 (Z.lor HORIZONTAL_FLIP_FLAG HEXAGONAL_ROTATION_FLAG))).
  reflexivity.
Defined.

Lemma unit_square_under_flips_witness :
  let p := xform_point (snd (extract_tile_transform (Z.lor 3 DIAGONAL_FLIP_FLAG)))
             (V3 (1 # 2) 0 (1 # 4)) in
  (vz p <= -1 \/ 2 <= vz p)%Q.
Proof.
  apply (unit_square_under_flips (Z.lor 3 DIAGONAL_FLIP_FLAG) (1 # 2) (1 # 4));
    split; discriminate.
Defined.

(** The atlas of the example is dyadic and holds its tile 5. *)
Lemma atlas_4x2_holds_tile_5 : tile_in_atlas atlas_4x2 5 /\ dyadic_atlas atlas_4x2 7 6.
Proof.
  split.
  - unfold tile_in_atlas.
    refine (conj _ (conj _ (conj _ (conj _ (conj _ (conj _
              (ex_intro _ 128 (ex_intro _ 64
                 (conj eq_refl (conj eq_refl (conj _ _)))))))))));
      vm_compute; try reflexivity; discriminate.
  - unfold dyadic_atlas. repeat split; try reflexivity; lia.
Defined.

Lemma get_tile_uv_transform_point_witness :
  exists uv,
    get_tile_uv_transform atlas_4x2 5 = Ok uv
    /\ (fst (texcoord_of uv 1 1) == (32 + 1 * 32) / 128)%Q
    /\ (snd (texcoord_of uv 1 1) == (0 + 1 * 32) / 64)%Q.
Proof.
  destruct (get_tile_uv_transform_point atlas_4x2 5 7 6
              (proj1 atlas_4x2_holds_tile_5) (proj2 atlas_4x2_holds_tile_5))
    as (uv & Huv & Hcorners).
  exists uv. split; [exact Huv|].
  exact (proj1 (List.Forall_forall _ _) Hcorners (1, 1)%Q
           (or_intror (or_intror (or_introl eq_refl)))).
Defined.

Lemma texcoords_inside_unit_square_witness :
  exists uv,
    get_tile_uv_transform atlas_4x2 5 = Ok uv
    /\ forall x y : Q, (0 <= x <= 1)%Q -> (0 <= y <= 1)%Q ->
         (0 <= fst (texcoord_of uv x y) <= 1 /\ 0 <= snd (texcoord_of uv x y) <= 1)%Q.
Proof.
  exact (texcoords_inside_unit_square atlas_4x2 5 7 6
           (proj1 atlas_4x2_holds_tile_5) (proj2 atlas_4x2_holds_tile_5)).
Defined.

Lemma tile_layer_structure_witness :
  let s' := fst (load_tile_layer crate_level (MkLayerHeader "ground" 1)
                   (Some [[1; 0]]) crate_state) in
  exists cluster geom rs,
    children_of s' 1%nat = [cluster]
    /\ geoms_of s' cluster = [(geom, rs)]
    /\ length (geom_vertex_data geom) = 6%nat
    /\ length (children_of s' 2%nat) = 1%nat.
Proof.
  intros s'.
  destruct (tile_layer_structure crate_level (MkLayerHeader "ground" 1) (Some [[1; 0]])
              crate_state s' 1%nat)
    as (_ & _ & cluster & geom & rs & Hchildren & Hgeoms & Hrows & _ & _ & Hplaced).
  - vm_compute. reflexivity.
  - exists cluster, geom, rs. split; [exact Hchildren|]. split; [exact Hgeoms|].
    split; [exact Hrows|]. apply Forall2_length in Hplaced. exact Hplaced.
Defined.

Lemma object_layer_mirrors_objects_witness :
  let s' := fst (load_object_layer crate_level (MkLayerHeader "things" 1) [big_crate]
                   crate_state) in
  Forall2 (fun o q => object_node o (scene s' !! q)) [big_crate] (children_of s' 1%nat).
Proof.
  intros s'.
  apply (object_layer_mirrors_objects crate_level (MkLayerHeader "things" 1) [big_crate]
           crate_state s' 1%nat).
  vm_compute. reflexivity.
Defined.

Lemma layer_group_mirrors_sublayers_witness :
  let out := load_layer crate_level scenery_group crate_state in
  Forall2 (fun l q => layer_node_of l (scene (fst (snd out)) !! q))
    [background_layer; ObjectLayer (MkLayerHeader "things" 1) [big_crate]]
    (children_of (fst (snd out)) 1%nat).
Proof.
  intros out.
  apply (layer_group_mirrors_sublayers crate_level (MkLayerHeader "scenery" 1)
           (Some [background_layer; ObjectLayer (MkLayerHeader "things" 1) [big_crate]])
           crate_state (fst (snd out)) 1%nat (fst out)).
  vm_compute. reflexivity.
Defined.

Lemma map_root_mirrors_layers_witness :
  let out := MapLoader_load_map crate_level crate_state in
  Forall2 (fun l q => layer_node_of l (scene (fst (snd out)) !! q))
    (layers crate_level) (children_of (fst (snd out)) 1%nat).
Proof.
  intros out.
  apply (map_root_mirrors_layers crate_level (fst out) crate_state (fst (snd out)) 1%nat).
  vm_compute. reflexivity.
Defined.
